(** * mcp-go-indexer: the indexing and search pipeline of
      [cmd/mcp-go-indexer/main.go], embedded in Rocq.

    The two tool handlers ([handleIndexProject] and the [codebase_search]
    closure) and [getOllamaEmbedding] are translated function by function.
    Every call that leaves the program (the file system, tree-sitter, sonic,
    the HTTP client, the Qdrant client, the logger) is answered by an
    environment record [Env] and recorded in a trace, so that statements such
    as "this file is never read" are statements about that trace. *)

From Stdlib Require Import ZArith List Ascii String SpecFloat Lia Bool.
From stdpp Require Import base tactics option list strings pretty gmap.

Local Open Scope Z_scope.
Local Set Warnings "-register-all".

(* ===================================================================== *)
(** * Go values *)
(* ===================================================================== *)

Module GoInt.

(** Go's [int] on the 64-bit targets the binary is built for: two's
    complement with silent wrap-around. *)
Definition wrap_int (z : Z) : Z := (z + 2 ^ 63) mod 2 ^ 64 - 2 ^ 63.

(** [x++] on an [int]. *)
Definition incr (x : Z) : Z := wrap_int (x + 1).

(** [uint32] arithmetic. *)
Definition wrap_uint32 (z : Z) : Z := z mod 2 ^ 32.

(** [uint8] arithmetic. *)
Definition wrap_uint8 (z : Z) : Z := z mod 2 ^ 8.

End GoInt.

(** Results of fallible calls: the value, or the error's message. *)
Inductive result (A : Type) : Type :=
| Ok (a : A)
| Err (msg : string).
Arguments Ok {A} a.
Arguments Err {A} msg.

Definition is_ok {A} (r : result A) : bool :=
  match r with Ok _ => true | Err _ => false end.

(** The bytes of a Go string, as numbers below 256. *)
Definition bytes_of_string (s : string) : list Z :=
  map (fun c => Z.of_N (N_of_ascii c)) (list_ascii_of_string s).

Definition string_eqb (a b : string) : bool := bool_decide (a = b).

(* ===================================================================== *)
(** * crypto/sha1 and github.com/google/uuid *)
(* ===================================================================== *)

Module Sha1.

Definition mask32 (z : Z) : Z := Z.land z 0xFFFFFFFF.

Definition add32 (a b : Z) : Z := mask32 (a + b).

Definition rotl (n x : Z) : Z :=
  mask32 (Z.lor (Z.shiftl x n) (Z.shiftr x (32 - n))).

Definition not32 (x : Z) : Z := Z.lxor x 0xFFFFFFFF.

(** Message padding: 0x80, zeros up to 56 mod 64, then the bit length as a
    big-endian 64-bit number. *)
Definition be_bytes (k : nat) (z : Z) : list Z :=
  map (fun i => Z.land (Z.shiftr z (8 * Z.of_nat i)) 0xFF) (rev (seq 0 k)).

Definition pad (msg : list Z) : list Z :=
  let len := Z.of_nat (length msg) in
  let zeros := Z.to_nat ((55 - len) mod 64) in
  msg ++ 0x80 :: repeat 0 zeros ++ be_bytes 8 (8 * len).

Fixpoint be_words (bs : list Z) : list Z :=
  match bs with
  | b0 :: b1 :: b2 :: b3 :: rest =>
      Z.lor (Z.shiftl b0 24) (Z.lor (Z.shiftl b1 16) (Z.lor (Z.shiftl b2 8) b3))
      :: be_words rest
  | _ => []
  end.

(** The message schedule, newest word first: [w] holds w[i-1], w[i-2], ... *)
Fixpoint schedule (n : nat) (w : list Z) : list Z :=
  match n with
  | O => w
  | S n' =>
      let x := Z.lxor (Z.lxor (nth 2 w 0) (nth 7 w 0))
                      (Z.lxor (nth 13 w 0) (nth 15 w 0)) in
      schedule n' (rotl 1 x :: w)
  end.

Definition round_f (i : nat) (b c d : Z) : Z :=
  if (i <? 20)%nat then Z.lor (Z.land b c) (Z.land (not32 b) d)
  else if (i <? 40)%nat then Z.lxor b (Z.lxor c d)
  else if (i <? 60)%nat then
    Z.lor (Z.lor (Z.land b c) (Z.land b d)) (Z.land c d)
  else Z.lxor b (Z.lxor c d).

Definition round_k (i : nat) : Z :=
  if (i <? 20)%nat then 0x5A827999
  else if (i <? 40)%nat then 0x6ED9EBA1
  else if (i <? 60)%nat then 0x8F1BBCDC
  else 0xCA62C1D6.

Record digest := Digest { h0 : Z; h1 : Z; h2 : Z; h3 : Z; h4 : Z }.

Definition init : digest :=
  Digest 0x67452301 0xEFCDAB89 0x98BADCFE 0x10325476 0xC3D2E1F0.

Fixpoint rounds (i : nat) (ws : list Z) (s : digest) : digest :=
  match ws with
  | [] => s
  | w :: ws' =>
      let '(Digest a b c d e) := s in
      let t := add32 (add32 (add32 (add32 (rotl 5 a) (round_f i b c d)) e)
                            (round_k i)) w in
      rounds (S i) ws' (Digest t a (rotl 30 b) c d)
  end.

Definition block (s : digest) (chunk : list Z) : digest :=
  let ws := rev (schedule 64 (rev (be_words chunk))) in
  let '(Digest a b c d e) := rounds 0 ws s in
  Digest (add32 (h0 s) a) (add32 (h1 s) b) (add32 (h2 s) c)
         (add32 (h3 s) d) (add32 (h4 s) e).

Fixpoint blocks (n : nat) (s : digest) (bs : list Z) : digest :=
  match n with
  | O => s
  | S n' => blocks n' (block s (firstn 64 bs)) (skipn 64 bs)
  end.

(** [sha1.Sum]: the 20 digest bytes. *)
Definition sum (msg : list Z) : list Z :=
  let p := pad msg in
  let '(Digest a b c d e) := blocks (length p / 64) init p in
  flat_map (be_bytes 4) [a; b; c; d; e].

End Sha1.

Module Uuid.

(** [uuid.NameSpaceURL] = 6ba7b811-9dad-11d1-80b4-00c04fd430c8. *)
Definition NameSpaceURL : list Z :=
  [0x6b; 0xa7; 0xb8; 0x11; 0x9d; 0xad; 0x11; 0xd1;
   0x80; 0xb4; 0x00; 0xc0; 0x4f; 0xd4; 0x30; 0xc8].

Definition NameSpaceDNS : list Z :=
  [0x6b; 0xa7; 0xb8; 0x10; 0x9d; 0xad; 0x11; 0xd1;
   0x80; 0xb4; 0x00; 0xc0; 0x4f; 0xd4; 0x30; 0xc8].

(** [NewHash(sha1.New(), space, data, 5)]: the first 16 digest bytes with
    the version nibble and the RFC 4122 variant bits written over. *)
Definition set_version (version : Z) (u : list Z) : list Z :=
  let u6 := Z.lor (Z.land (nth 6 u 0) 0x0f)
                  (GoInt.wrap_uint8 (Z.shiftl (Z.land version 0xf) 4)) in
  let u8 := Z.lor (Z.land (nth 8 u 0) 0x3f) 0x80 in
  <[8%nat := u8]> (<[6%nat := u6]> u).

Definition NewSHA1 (space data : list Z) : list Z :=
  set_version 5 (firstn 16 (Sha1.sum (space ++ data))).

Definition hextable : string := "0123456789abcdef".

Definition hexchar (v : Z) : ascii :=
  match String.get (Z.to_nat v) hextable with
  | Some c => c
  | None => "0"%char
  end.

Fixpoint encodeHex (bs : list Z) : string :=
  match bs with
  | [] => ""
  | v :: rest =>
      String (hexchar (Z.shiftr v 4))
        (String (hexchar (Z.land v 0x0f)) (encodeHex rest))
  end.

Definition slice (from to : nat) (u : list Z) : list Z :=
  firstn (to - from) (skipn from u).

(** [UUID.String]: xxxxxxxx-xxxx-xxxx-xxxx-xxxxxxxxxxxx. *)
Definition String_ (u : list Z) : string :=
  encodeHex (slice 0 4 u) +:+ "-" +:+ encodeHex (slice 4 6 u) +:+ "-" +:+
  encodeHex (slice 6 8 u) +:+ "-" +:+ encodeHex (slice 8 10 u) +:+ "-" +:+
  encodeHex (slice 10 16 u).

End Uuid.

(* ===================================================================== *)
(** * fmt verbs used by the handlers *)
(* ===================================================================== *)

Module Fmt.

(** [%d] of an integer. *)
Definition d (z : Z) : string := pretty z.

(** Quotient of [num / den] ([den] positive) rounded to nearest, ties to
    even: the rule of [strconv]'s decimal rounding. *)
Definition round_half_even (num den : Z) : Z :=
  let q := num / den in
  match Z.compare (2 * (num mod den)) den with
  | Lt => q
  | Gt => q + 1
  | Eq => if Z.even q then q else q + 1
  end.

Definition zero_pad (width : nat) (s : string) : string :=
  string_of_list_ascii (repeat "0"%char (width - String.length s)) +:+ s.

(** [%.3f] of a float: the exact binary value rounded to three decimals. *)
Definition f3 (x : spec_float) : string :=
  match x with
  | S754_nan => "NaN"
  | S754_infinity s => if s then "-Inf" else "+Inf"
  | S754_zero s => (if s then "-" else "") +:+ "0.000"
  | S754_finite s m e =>
      let thousandths :=
        if 0 <=? e then Z.pos m * 2 ^ e * 1000
        else round_half_even (Z.pos m * 1000) (2 ^ (- e)) in
      (if s then "-" else "") +:+ pretty (thousandths / 1000) +:+ "." +:+
      zero_pad 3 (pretty (thousandths mod 1000))
  end.

End Fmt.

(** [float32(val)] for a [float64]: rounding to nearest even into binary32. *)
Definition float32 (x : spec_float) : spec_float :=
  match x with
  | S754_finite s m e => binary_round 24 128 s m e
  | other => other
  end.

(* ===================================================================== *)
(** * path/filepath and strings *)
(* ===================================================================== *)

Module Filepath.

(** The backwards scan of [filepath.Ext]: [before] is the part of the path
    not yet looked at, last byte first; [after] is the part already
    passed. *)
Fixpoint ext_scan (before : list ascii) (after : list ascii) : string :=
  match before with
  | [] => ""
  | c :: before' =>
      if Ascii.eqb c "/" then ""
      else if Ascii.eqb c "." then string_of_list_ascii (c :: after)
      else ext_scan before' (c :: after)
  end.

Definition Ext (path : string) : string :=
  ext_scan (rev (list_ascii_of_string path)) [].

(** [filepath.Join(path, name)] as [WalkDir] uses it: [path] is the
    directory being listed and [name] one of its entry names.  [Join] also
    cleans its result; for a root path that is already clean (an absolute
    path with no trailing or doubled separator and no "." or ".." element)
    every path of the walk is clean and cleaning changes nothing. *)
Definition Join (path name : string) : string := path +:+ "/" +:+ name.

End Filepath.

(** [strings.HasPrefix]. *)
Definition HasPrefix (s pre : string) : bool := String.prefix pre s.

(* ===================================================================== *)
(** * The file tree seen by filepath.WalkDir *)
(* ===================================================================== *)

(** What the walk finds at a path.  A [File] stands for every entry that is
    not a directory, and carries what [os.ReadFile] would return for it; a
    [Dir] carries what [os.ReadDir] returns: the entries it could read, in
    file-name order, and the error if reading stopped early. *)
Inductive DirEntry : Type :=
| File (name : string) (content : result string)
| Dir (name : string) (entries : list DirEntry) (readErr : option string).

Definition Name (d : DirEntry) : string :=
  match d with File n _ => n | Dir n _ _ => n end.

Definition IsDir (d : DirEntry) : bool :=
  match d with File _ _ => false | Dir _ _ _ => true end.

(** Go errors that [WalkDir] compares by identity, and all others. *)
Inductive GoError : Type :=
| SkipDir
| SkipAll
| OtherError (msg : string).

(** The arguments of one [fs.WalkDirFunc] call besides the path: either an
    entry and a nil error, or an error (with the entry when there is one). *)
Inductive WalkArg : Type :=
| Visit (d : DirEntry)
| Failure (d : option DirEntry) (err : GoError).

(* ===================================================================== *)
(** * Qdrant values, tree-sitter matches, Ollama messages *)
(* ===================================================================== *)

Definition CollectionName : string := "codebase_index".

Inductive Value : Type :=
| NullValue
| BoolValue (b : bool)
| IntegerValue (z : Z)
| DoubleValue (f : spec_float)
| StringValue (s : string).

Definition NewValueString (s : string) : Value := StringValue s.
Definition NewValueInt (z : Z) : Value := IntegerValue z.

(** The getters are nil-safe: a missing map entry reads as the zero value. *)
Definition GetStringValue (v : option Value) : string :=
  match v with Some (StringValue s) => s | _ => "" end.

Definition GetIntegerValue (v : option Value) : Z :=
  match v with Some (IntegerValue z) => z | _ => 0 end.

Record PointStruct := {
  Id : string;
  Vectors : list spec_float;
  Payload : gmap string Value
}.

Record UpsertPoints := {
  up_CollectionName : string;
  up_Points : list PointStruct
}.

Record QueryPoints := {
  qp_CollectionName : string;
  qp_Query : list spec_float;
  qp_Limit : Z;
  qp_WithPayload : bool
}.

Record ScoredPoint := {
  sp_Id : string;
  sp_Payload : gmap string Value;
  sp_Score : spec_float
}.

(** A syntax node: its byte span and the rows of its end points. *)
Record Node := {
  StartByte : nat;
  EndByte : nat;
  StartRow : Z;
  EndRow : Z
}.

(** [node.Content(input)]: [input[StartByte:EndByte]]. *)
Definition Content (n : Node) (input : string) : string :=
  substring (StartByte n) (EndByte n - StartByte n) input.

Record QueryCapture := { Index : nat; CapNode : Node }.

Record QueryMatch := { Captures : list QueryCapture }.

(** [q.CaptureNameForId] for the query of [handleIndexProject], whose
    captures are, in order of first use, [@name] and [@func]. *)
Definition CaptureNameForId (id : nat) : string :=
  match id with
  | 0%nat => "name"
  | 1%nat => "func"
  | _ => ""
  end.

Record OllamaEmbedRequest := {
  req_Model : string;
  req_Input : string
}.

Record OllamaEmbedResponse := {
  resp_Model : string;
  Embeddings : list (list spec_float);
  TotalDuration : Z;
  LoadDuration : Z;
  PromptEvalCount : Z
}.

(** What [http.Post] returns: a transport error, or a response with its
    status code and what decoding its body into [OllamaEmbedResponse]
    gives. *)
Inductive PostOutcome : Type :=
| PostFailed (msg : string)
| PostResponse (StatusCode : Z) (body : result OllamaEmbedResponse).

Definition StatusOK : Z := 200.

(* ===================================================================== *)
(** * The world outside the program *)
(* ===================================================================== *)

(** One entry per call that leaves the program, in call order. *)
Inductive Event : Type :=
| EvReadDir (path : string)
| EvReadFile (path : string) (ok : bool)
| EvParse (content : string)
| EvMarshal (req : OllamaEmbedRequest)
| EvPost (url contentType body : string)
| EvUpsert (req : UpsertPoints) (ok : bool)
| EvQuery (req : QueryPoints)
| EvLog (msg : string).

Record World := {
  trace : list Event;
  store : gmap string PointStruct
}.

(** The answers of the world.  [os_Lstat] gives the tree found at a path,
    the root entry carrying the last element of the path as its name, as
    the [FileInfo] of [os.Lstat] does.  The number handed to [http_Post] and
    [qdrant_Upsert] is the number of calls made before, so that one call can
    fail and the next succeed.  A failed upsert is taken to leave the store
    as it was. *)
Record Env := {
  ollamaURL : string;
  embeddingModel : string;
  os_Lstat : string -> result DirEntry;
  ts_matches : string -> list QueryMatch;
  sonic_Marshal : OllamaEmbedRequest -> result string;
  http_Post : nat -> string -> string -> string -> PostOutcome;
  qdrant_Upsert : nat -> UpsertPoints -> option string;
  qdrant_Query : gmap string PointStruct -> QueryPoints ->
                 result (list ScoredPoint);
  strconv_ParseFloat : string -> result spec_float;
  uint64_of_float : spec_float -> Z
}.

(** The bodies posted to the embedding service, and the upserts tried. *)
Definition posts_of (tr : list Event) : list string :=
  omap (fun e => match e with EvPost _ _ body => Some body | _ => None end) tr.

Definition upserts_of (tr : list Event) : list UpsertPoints :=
  omap (fun e => match e with EvUpsert r _ => Some r | _ => None end) tr.

(** A small state monad for code that talks to the world. *)
Definition M (S A : Type) : Type := S -> A * S.

Definition ret {S A : Type} (a : A) : M S A := fun s => (a, s).

Definition bind {S A B : Type} (m : M S A) (k : A -> M S B) : M S B :=
  fun s => let '(a, s') := m s in k a s'.

Notation "x <- m ;; k" := (bind m (fun x => k))
  (at level 100, m at next level, right associativity).
Notation "m ;;; k" := (bind m (fun _ => k))
  (at level 100, right associativity).

Definition emit (e : Event) : M World unit :=
  fun w => (tt, {| trace := trace w ++ [e]; store := store w |}).

Definition posts_so_far : M World nat :=
  fun w => (length (posts_of (trace w)), w).

Definition upserts_so_far : M World nat :=
  fun w => (length (upserts_of (trace w)), w).

(** A successful upsert writes each point under its id. *)
Definition write_points (ps : list PointStruct) : M World unit :=
  fun w => (tt, {| trace := trace w;
                   store := fold_left (fun m p => <[Id p := p]> m) ps (store w) |}).

Definition read_store : M World (gmap string PointStruct) :=
  fun w => (store w, w).

(* ===================================================================== *)
(** * getOllamaEmbedding *)
(* ===================================================================== *)

Definition getOllamaEmbedding (env : Env) (text : string)
  : M World (result (list spec_float)) :=
  let reqBody := {| req_Model := embeddingModel env; req_Input := text |} in
  emit (EvMarshal reqBody) ;;;
  match sonic_Marshal env reqBody with
  | Err e => ret (Err ("failed to marshal request: " +:+ e))
  | Ok jsonData =>
      n <- posts_so_far ;;
      emit (EvPost (ollamaURL env) "application/json" jsonData) ;;;
      match http_Post env n (ollamaURL env) "application/json" jsonData with
      | PostFailed e => ret (Err ("failed to call Ollama API: " +:+ e))
      | PostResponse status body =>
          if negb (status =? StatusOK)
          then ret (Err ("ollama API returned status: " +:+ Fmt.d status))
          else
            match body with
            | Err e => ret (Err ("failed to decode ollama response: " +:+ e))
            | Ok embedResp =>
                match Embeddings embedResp with
                | [] => ret (Err "ollama returned an empty embeddings array")
                | float64Vector :: _ => ret (Ok (map float32 float64Vector))
                end
            end
      end
  end.

(* ===================================================================== *)
(** * The MCP request and result *)
(* ===================================================================== *)

(** A decoded JSON argument; [ArgInt] is a Go [int] put there by a caller
    in the same process. *)
Inductive ArgValue : Type :=
| ArgString (s : string)
| ArgFloat (f : spec_float)
| ArgInt (z : Z)
| ArgOther.

Record CallToolRequest := { Arguments_ : gmap string ArgValue }.

Inductive CallToolResult : Type :=
| NewToolResultText (text : string)
| NewToolResultError (text : string).

Definition quote (s : string) : string :=
  String (ascii_of_nat 34) s +:+ String (ascii_of_nat 34) "".

Definition RequireString (request : CallToolRequest) (key : string)
  : result string :=
  match Arguments_ request !! key with
  | Some (ArgString str) => Ok str
  | Some _ => Err ("argument " +:+ quote key +:+ " is not a string")
  | None => Err ("required argument " +:+ quote key +:+ " not found")
  end.

Definition GetFloat (env : Env) (request : CallToolRequest) (key : string)
    (defaultValue : spec_float) : spec_float :=
  match Arguments_ request !! key with
  | Some (ArgFloat v) => v
  | Some (ArgInt v) => binary_normalize 53 1024 v 0 false
  | Some (ArgString v) =>
      match strconv_ParseFloat env v with
      | Ok f => f
      | Err _ => defaultValue
      end
  | _ => defaultValue
  end.

(** [uint64(f)]: truncation toward zero when the result fits; what the
    hardware gives otherwise. *)
Definition uint64 (env : Env) (f : spec_float) : Z :=
  match f with
  | S754_zero _ => 0
  | S754_finite s m e =>
      let v := if 0 <=? e then cond_Zopp s (Z.pos m * 2 ^ e)
               else Z.quot (cond_Zopp s (Z.pos m)) (2 ^ (- e)) in
      if (0 <=? v) && (v <? 2 ^ 64) then v else uint64_of_float env f
  | _ => uint64_of_float env f
  end.

Definition nl : string := String (ascii_of_nat 10) "".

(* ===================================================================== *)
(** * handleIndexProject *)
(* ===================================================================== *)

Record Stats := {
  Files : Z;
  Chunks : Z;
  Skipped : Z;
  Failed : Z
}.

Definition no_stats : Stats :=
  {| Files := 0; Chunks := 0; Skipped := 0; Failed := 0 |}.

Definition incFiles (s : Stats) : Stats :=
  {| Files := GoInt.incr (Files s); Chunks := Chunks s;
     Skipped := Skipped s; Failed := Failed s |}.

Definition incChunks (s : Stats) : Stats :=
  {| Files := Files s; Chunks := GoInt.incr (Chunks s);
     Skipped := Skipped s; Failed := Failed s |}.

Definition incSkipped (s : Stats) : Stats :=
  {| Files := Files s; Chunks := Chunks s;
     Skipped := GoInt.incr (Skipped s); Failed := Failed s |}.

Definition incFailed (s : Stats) : Stats :=
  {| Files := Files s; Chunks := Chunks s;
     Skipped := Skipped s; Failed := GoInt.incr (Failed s) |}.

(** The state of one run: the local [stats] and the world. *)
Record IndexState := {
  stats : Stats;
  world : World
}.

Definition liftW {A : Type} (m : M World A) : M IndexState A :=
  fun st => let '(a, w) := m (world st) in
            (a, {| stats := stats st; world := w |}).

Definition count (f : Stats -> Stats) : M IndexState unit :=
  fun st => (tt, {| stats := f (stats st); world := world st |}).

(** The variables the capture loop assigns. *)
Record Details := {
  funcName : string;
  funcBody : string;
  startLine : Z;
  endLine : Z
}.

Definition captureStep (content : string) (acc : Details)
    (capture : QueryCapture) : Details :=
  let node := CapNode capture in
  let name := CaptureNameForId (Index capture) in
  if string_eqb name "func" then
    {| funcName := funcName acc;
       funcBody := Content node content;
       startLine := GoInt.wrap_uint32 (StartRow node + 1);
       endLine := GoInt.wrap_uint32 (EndRow node + 1) |}
  else if string_eqb name "name" then
    {| funcName := Content node content;
       funcBody := funcBody acc;
       startLine := startLine acc;
       endLine := endLine acc |}
  else acc.

Definition extractDetails (content : string) (m : QueryMatch) : Details :=
  fold_left (captureStep content) (Captures m)
            {| funcName := ""; funcBody := ""; startLine := 0; endLine := 0 |}.

(** [[]byte(path+":"+funcName)], the name that is hashed. *)
Definition hashedName (path funcName : string) : list Z :=
  bytes_of_string (path +:+ ":" +:+ funcName).

(** [uuid.NewSHA1(uuid.NameSpaceURL, []byte(path+":"+funcName)).String()]. *)
Definition uniqueID (path funcName : string) : string :=
  Uuid.String_ (Uuid.NewSHA1 Uuid.NameSpaceURL (hashedName path funcName)).

Definition indexPayload (path : string) (f : Details) : gmap string Value :=
  list_to_map
    [ ("file_path", NewValueString path);
      ("function", NewValueString (funcName f));
      ("line_start", NewValueInt (startLine f));
      ("line_end", NewValueInt (endLine f));
      ("code_snippet", NewValueString (funcBody f)) ].

Definition indexPoint (path : string) (f : Details)
    (embedding : list spec_float) : PointStruct :=
  {| Id := uniqueID path (funcName f);
     Vectors := embedding;
     Payload := indexPayload path f |}.

(** The body of the match loop. *)
Definition indexMatch (env : Env) (path content : string) (m : QueryMatch)
  : M IndexState unit :=
  let f := extractDetails content m in
  embedding <- liftW (getOllamaEmbedding env (funcBody f)) ;;
  match embedding with
  | Err _ => count incFailed
  | Ok embedding =>
      let req := {| up_CollectionName := CollectionName;
                    up_Points := [indexPoint path f embedding] |} in
      n <- liftW upserts_so_far ;;
      match qdrant_Upsert env n req with
      | Some e =>
          liftW (emit (EvUpsert req false)) ;;;
          liftW (emit (EvLog ("Qdrant upsert error: " +:+ e))) ;;;
          count incFailed
      | None =>
          liftW (emit (EvUpsert req true)) ;;;
          liftW (write_points (up_Points req)) ;;;
          count incChunks
      end
  end.

(** The match loop: [qc.NextMatch] until it reports no further match. *)
Fixpoint indexMatches (env : Env) (path content : string)
    (ms : list QueryMatch) : M IndexState unit :=
  match ms with
  | [] => ret tt
  | m :: ms' =>
      indexMatch env path content m ;;; indexMatches env path content ms'
  end.

(** [os.ReadFile] at the path of an entry. *)
Definition ReadFile (d : DirEntry) : result string :=
  match d with
  | File _ content => content
  | Dir _ _ _ => Err "is a directory"
  end.

Definition pruned (name : string) : bool :=
  HasPrefix name "." || string_eqb name "node_modules"
  || string_eqb name "vendor".

(** The function handed to [filepath.WalkDir]. *)
Definition walkFn (env : Env) (path : string) (arg : WalkArg)
  : M IndexState (option GoError) :=
  match arg with
  | Failure _ err => ret (Some err)
  | Visit d =>
      if IsDir d then
        if pruned (Name d) then ret (Some SkipDir) else ret None
      else if negb (string_eqb (Filepath.Ext path) ".go") then
        count incSkipped ;;; ret None
      else
        match ReadFile d with
        | Err _ =>
            liftW (emit (EvReadFile path false)) ;;;
            count incFailed ;;; ret None
        | Ok content =>
            liftW (emit (EvReadFile path true)) ;;;
            count incFiles ;;;
            liftW (emit (EvParse content)) ;;;
            indexMatches env path content (ts_matches env content) ;;;
            ret None
        end
  end.

(** [filepath.WalkDir], for any walk function. *)
Section WalkDir.

Variable fn : string -> WalkArg -> M IndexState (option GoError).

Definition is_SkipDir (e : GoError) : bool :=
  match e with SkipDir => true | _ => false end.

(** The loop of [walkDir] over the entries of a directory; [SkipDir] from
    an entry ends the listing it is in. *)
Definition eachEntry (walk : string -> DirEntry -> M IndexState (option GoError))
    (path : string) : list DirEntry -> M IndexState (option GoError) :=
  fix each (ds : list DirEntry) : M IndexState (option GoError) :=
    match ds with
    | [] => ret None
    | d1 :: ds' =>
        err <- walk (Filepath.Join path (Name d1)) d1 ;;
        match err with
        | Some e => if is_SkipDir e then ret None else ret (Some e)
        | None => each ds'
        end
    end.

(** [walkDir]: the entry itself, then, for a directory, its entries in
    order. *)
Fixpoint walkDir (path : string) (d : DirEntry) {struct d}
  : M IndexState (option GoError) :=
  err <- fn path (Visit d) ;;
  match err with
  | Some e => if is_SkipDir e && IsDir d then ret None else ret (Some e)
  | None =>
      match d with
      | File _ _ => ret None
      | Dir _ entries readErr =>
          liftW (emit (EvReadDir path)) ;;;
          err <- match readErr with
                 | Some e => fn path (Failure (Some d) (OtherError e))
                 | None => ret None
                 end ;;
          match err with
          | Some e => if is_SkipDir e then ret None else ret (Some e)
          | None => eachEntry walkDir path entries
          end
      end
  end.

Definition WalkDir (env : Env) (root : string)
  : M IndexState (option GoError) :=
  err <- match os_Lstat env root with
         | Err e => fn root (Failure None (OtherError e))
         | Ok d => walkDir root d
         end ;;
  match err with
  | Some SkipDir | Some SkipAll => ret None
  | _ => ret err
  end.

End WalkDir.

Definition report (s : Stats) : string :=
  "Indexing Complete." +:+ nl +:+
  "Files Scanned: " +:+ Fmt.d (Files s) +:+ nl +:+
  "Functions Indexed: " +:+ Fmt.d (Chunks s) +:+ nl +:+
  "Failed/Skipped: " +:+ Fmt.d (Failed s) +:+ "/" +:+ Fmt.d (Skipped s).

(** The run proper: everything after the [path] argument was read. *)
Definition indexRun (env : Env) (rootPath : string)
  : M World (option GoError * Stats) :=
  fun w =>
    let '(err, st) := WalkDir (walkFn env) env rootPath
                        {| stats := no_stats; world := w |} in
    ((err, stats st), world st).

Definition handleIndexProject (env : Env) (request : CallToolRequest)
  : M World (CallToolResult * option GoError) :=
  match RequireString request "path" with
  | Err e => ret (NewToolResultError ("Path required: " +:+ e), None)
  | Ok rootPath =>
      r <- indexRun env rootPath ;;
      ret (NewToolResultText (report (snd r)), None)
  end.

(* ===================================================================== *)
(** * The codebase_search handler *)
(* ===================================================================== *)

(** One turn of the result loop: the block appended to [responseText]. *)
Definition formatPoint (point : ScoredPoint) : string :=
  let payload := sp_Payload point in
  let filePath := GetStringValue (payload !! "file_path") in
  let lineNum := GetIntegerValue (payload !! "line_number") in
  let codeSnippet := GetStringValue (payload !! "code_snippet") in
  "File: " +:+ filePath +:+ " (Line: " +:+ Fmt.d lineNum +:+ ")" +:+ nl +:+
  "Score: " +:+ Fmt.f3 (sp_Score point) +:+ nl +:+
  "```go" +:+ nl +:+ codeSnippet +:+ nl +:+ "```" +:+ nl +:+ nl +:+
  "---" +:+ nl.

Definition formatResults (searchResults : list ScoredPoint) : string :=
  fold_left (fun responseText point => responseText +:+ formatPoint point)
            searchResults "".

Definition twenty : spec_float := S754_finite false 5 2.

(** The query sent to the store: the vector, the limit read from the
    request ([uint64] of the "limit" number, 20 by default) and the payload
    flag. *)
Definition searchRequest (env : Env) (request : CallToolRequest)
    (queryVector : list spec_float) : QueryPoints :=
  {| qp_CollectionName := CollectionName;
     qp_Query := queryVector;
     qp_Limit := uint64 env (GetFloat env request "limit" twenty);
     qp_WithPayload := true |}.

Definition codebase_search (env : Env) (request : CallToolRequest)
  : M World (CallToolResult * option GoError) :=
  match RequireString request "query" with
  | Err e =>
      ret (NewToolResultError ("Invalid or missing 'query': " +:+ e), None)
  | Ok query =>
      queryVector <- getOllamaEmbedding env query ;;
      match queryVector with
      | Err e => ret (NewToolResultError ("Ollama error: " +:+ e), None)
      | Ok queryVector =>
          let req := searchRequest env request queryVector in
          emit (EvQuery req) ;;;
          points <- read_store ;;
          match qdrant_Query env points req with
          | Err e =>
              ret (NewToolResultError ("Qdrant search error: " +:+ e), None)
          | Ok searchResults =>
              let responseText := formatResults searchResults in
              let responseText :=
                if string_eqb responseText "" then "No relevant code found."
                else responseText in
              ret (NewToolResultText responseText, None)
          end
      end
  end.

(* ===================================================================== *)
(** * What a run is expected to touch *)
(* ===================================================================== *)

(** The paths handed to [os.ReadFile], the texts handed to
    [getOllamaEmbedding], and the upserts the store accepted, in order. *)
Definition reads_of (tr : list Event) : list string :=
  omap (fun e => match e with EvReadFile p _ => Some p | _ => None end) tr.

Definition inputs_of (tr : list Event) : list string :=
  omap (fun e => match e with EvMarshal r => Some (req_Input r) | _ => None end) tr.

Definition upserted_of (tr : list Event) : list UpsertPoints :=
  omap (fun e => match e with EvUpsert r true => Some r | _ => None end) tr.

(** The entries that are not directories and sit under no pruned directory,
    with their paths, in walk order. *)
Fixpoint visible (path : string) (d : DirEntry) : list (string * result string) :=
  match d with
  | File _ content => [(path, content)]
  | Dir n entries _ =>
      if pruned n then []
      else flat_map (fun d1 => visible (Filepath.Join path (Name d1)) d1) entries
  end.

(** The files the walk reaches, in order, and the listing error that stops
    it, if one does: both are read off the tree. *)
Definition reachedEach
    (reach : string -> DirEntry -> list (string * result string) * option string)
    (path : string)
  : list DirEntry -> list (string * result string) * option string :=
  fix each (ds : list DirEntry) :=
    match ds with
    | [] => ([], None)
    | d1 :: ds' =>
        let '(files1, stop) := reach (Filepath.Join path (Name d1)) d1 in
        match stop with
        | Some e => (files1, Some e)
        | None =>
            let '(files2, stop2) := each ds' in (files1 ++ files2, stop2)
        end
    end.

Fixpoint reached (path : string) (d : DirEntry) {struct d}
  : list (string * result string) * option string :=
  match d with
  | File _ content => ([(path, content)], None)
  | Dir n entries readErr =>
      if pruned n then ([], None)
      else
        match readErr with
        | Some e => ([], Some e)
        | None => reachedEach reached path entries
        end
  end.

(** No directory the walk lists fails to be read. *)
Fixpoint clean (d : DirEntry) : bool :=
  match d with
  | File _ _ => true
  | Dir n entries readErr =>
      pruned n || (bool_decide (readErr = None) && forallb clean entries)
  end.

Definition is_go (f : string * result string) : bool :=
  string_eqb (Filepath.Ext (fst f)) ".go".

Definition chunk_inputs (env : Env) (content : string) : list string :=
  map (fun m => funcBody (extractDetails content m)) (ts_matches env content).

Definition file_reads (f : string * result string) : list string :=
  if is_go f then [fst f] else [].

Definition file_inputs (env : Env) (f : string * result string) : list string :=
  if is_go f then
    match snd f with Ok content => chunk_inputs env content | Err _ => [] end
  else [].

Definition file_scanned (f : string * result string) : nat :=
  if is_go f && is_ok (snd f) then 1 else 0.

Definition file_skipped (f : string * result string) : nat :=
  if is_go f then 0 else 1.

(** What a file can add to [Chunks] or [Failed]: one per function found, or
    one for the file when it cannot be read. *)
Definition file_items (env : Env) (f : string * result string) : nat :=
  if is_go f then
    match snd f with
    | Ok content => length (ts_matches env content)
    | Err _ => 1
    end
  else 0.

(** From [st] to [st'] the run read [reads], asked embeddings for [inputs],
    and counted [files] scanned, [skipped] skipped and [items] indexed or
    failed, an item being indexed exactly when the store accepted it. *)
Record accounts (st st' : IndexState) (reads inputs : list string)
    (files skipped items : nat) : Prop := {
  acc_reads :
    reads_of (trace (world st')) = reads_of (trace (world st)) ++ reads;
  acc_inputs :
    inputs_of (trace (world st')) = inputs_of (trace (world st)) ++ inputs;
  acc_files :
    Files (stats st') = Nat.iter files GoInt.incr (Files (stats st));
  acc_skipped :
    Skipped (stats st') = Nat.iter skipped GoInt.incr (Skipped (stats st));
  acc_items :
    exists indexed failed : nat,
      (indexed + failed = items)%nat /\
      length (upserted_of (trace (world st')))
        = (length (upserted_of (trace (world st))) + indexed)%nat /\
      Chunks (stats st') = Nat.iter indexed GoInt.incr (Chunks (stats st)) /\
      Failed (stats st') = Nat.iter failed GoInt.incr (Failed (stats st))
}.

(** [accounts] for a list of visible files taken together. *)
Definition tally (env : Env) (st st' : IndexState)
    (files : list (string * result string)) : Prop :=
  accounts st st'
    (flat_map file_reads files) (flat_map (file_inputs env) files)
    (sum_list_with file_scanned files) (sum_list_with file_skipped files)
    (sum_list_with (file_items env) files).

(** The same tree with every pruned directory emptied. *)
Fixpoint hide (d : DirEntry) : DirEntry :=
  match d with
  | File n content => File n content
  | Dir n entries readErr =>
      if pruned n then Dir n [] None else Dir n (map hide entries) readErr
  end.

Definition hide_pruned (env : Env) : Env :=
  {| ollamaURL := ollamaURL env;
     embeddingModel := embeddingModel env;
     os_Lstat := fun p => match os_Lstat env p with
                          | Ok d => Ok (hide d)
                          | Err e => Err e
                          end;
     ts_matches := ts_matches env;
     sonic_Marshal := sonic_Marshal env;
     http_Post := http_Post env;
     qdrant_Upsert := qdrant_Upsert env;
     qdrant_Query := qdrant_Query env;
     strconv_ParseFloat := strconv_ParseFloat env;
     uint64_of_float := uint64_of_float env |}.


(* ===================================================================== *)
(** * A sample project *)
(* ===================================================================== *)

Module Sample.

(** A file with one function on its third line. *)
Definition foo_go : string :=
  "package p" +:+ nl +:+ nl +:+ "func Foo() {}" +:+ nl.

(** A file with a function and a method. *)
Definition foobar_go : string :=
  foo_go +:+ nl +:+ "func (t T) Bar() {}" +:+ nl.

Definition capture (idx : nat) (b e : nat) (row : Z) : QueryCapture :=
  {| Index := idx;
     CapNode := {| StartByte := b; EndByte := e;
                   StartRow := row; EndRow := row |} |}.

Definition match_Foo : QueryMatch :=
  {| Captures := [capture 1 11 24 2; capture 0 16 19 2] |}.

Definition match_Bar : QueryMatch :=
  {| Captures := [capture 1 26 45 4; capture 0 37 40 4] |}.

Definition matches (content : string) : list QueryMatch :=
  if string_eqb content foo_go then [match_Foo]
  else if string_eqb content foobar_go then [match_Foo; match_Bar]
  else [].

Definition embedding_reply : PostOutcome :=
  PostResponse 200
    (Ok {| resp_Model := "qwen3-embedding:8b";
           Embeddings := [[S754_finite false 1 (-1); S754_finite true 3 (-2)]];
           TotalDuration := 0; LoadDuration := 0; PromptEvalCount := 0 |}).

Definition score : spec_float := S754_finite false 7 (-3).

(** The store answers a query with its points, up to the limit. *)
Definition query (points : gmap string PointStruct) (req : QueryPoints)
  : result (list ScoredPoint) :=
  Ok (take (Z.to_nat (qp_Limit req))
           (map (fun kv => {| sp_Id := fst kv;
                              sp_Payload := Payload (snd kv);
                              sp_Score := score |})
                (map_to_list points))).

Definition env_of (root : string) (tree : result DirEntry)
    (post : nat -> PostOutcome) (upsert : nat -> option string) : Env :=
  {| ollamaURL := "http://localhost:11434";
     embeddingModel := "qwen3-embedding:8b";
     os_Lstat := fun p => if string_eqb p root then tree
                          else Err "no such file or directory";
     ts_matches := matches;
     sonic_Marshal := fun r => Ok ("{" +:+ quote "model" +:+ ":" +:+
                                   quote (req_Model r) +:+ "," +:+
                                   quote "input" +:+ ":" +:+
                                   quote (req_Input r) +:+ "}");
     http_Post := fun n _ _ _ => post n;
     qdrant_Upsert := fun n _ => upsert n;
     qdrant_Query := query;
     strconv_ParseFloat := fun _ => Err "invalid syntax";
     uint64_of_float := fun _ => 0 |}.

(** A project of one file, with every service answering. *)
Definition small_tree : DirEntry :=
  Dir "proj" [File "a.go" (Ok foo_go)] None.

Definition small_env : Env :=
  env_of "/proj" (Ok small_tree) (fun _ => embedding_reply) (fun _ => None).

(** A project with hidden and vendored directories, a hidden Go file, a
    file that is not Go and one that cannot be read; the first embedding
    call and the second upsert fail. *)
Definition tree : DirEntry :=
  Dir "proj"
    [ Dir ".git" [File "hook.go" (Ok foo_go)] None;
      File ".hidden.go" (Ok foobar_go);
      File "README.md" (Ok "readme");
      File "a.go" (Ok foobar_go);
      File "bad.go" (Err "permission denied");
      Dir "pkg" [File "b.go" (Ok foo_go);
                 Dir "vendor" [File "dep.go" (Ok foo_go)] None] None ]
    None.

Definition env : Env :=
  env_of "/proj" (Ok tree)
    (fun n => if (n =? 0)%nat then PostFailed "connection refused"
              else embedding_reply)
    (fun n => if (n =? 1)%nat then Some "deadline exceeded" else None).

(** The same with no file system behind the root path. *)
Definition lost_env : Env :=
  env_of "/proj" (Err "no such file or directory")
    (fun _ => embedding_reply) (fun _ => None).

(** The root itself is a hidden directory. *)
Definition hidden_root_env : Env :=
  env_of "/home/u/.cache"
    (Ok (Dir ".cache" [File "a.go" (Ok foo_go)] None))
    (fun _ => embedding_reply) (fun _ => None).

Definition world0 : World := {| trace := []; store := ∅ |}.

Definition state0 : IndexState := {| stats := no_stats; world := world0 |}.

Definition index_request (root : string) : CallToolRequest :=
  {| Arguments_ := {[ "path" := ArgString root ]} |}.

Definition search_request (query : string) : CallToolRequest :=
  {| Arguments_ := {[ "query" := ArgString query ]} |}.

End Sample.

(* ===================================================================== *)
(** * What indexing can do to the world *)
(* ===================================================================== *)

(** The upsert request built for one chunk. *)
Definition upsertOf (path : string) (f : Details)
    (embedding : list spec_float) : UpsertPoints :=
  {| up_CollectionName := CollectionName;
     up_Points := [indexPoint path f embedding] |}.

(** The moves of [handleIndexProject] on the world: a call that is logged
    and leaves the store alone (never a query, never an accepted upsert),
    or an accepted upsert, which is logged and writes the chunk's point
    under the chunk's id. *)
Inductive index_step : World -> World -> Prop :=
| step_event (w : World) (e : Event) :
    (forall q, e <> EvQuery q) ->
    (forall r, e <> EvUpsert r true) ->
    index_step w {| trace := trace w ++ [e]; store := store w |}
| step_upsert (w : World) (path : string) (f : Details)
    (embedding : list spec_float) :
    index_step w
      {| trace := trace w ++ [EvUpsert (upsertOf path f embedding) true];
         store := <[uniqueID path (funcName f) := indexPoint path f embedding]>
                    (store w) |}.

(** [m] moves the world by index steps only. *)
Definition index_only {A : Type} (m : M IndexState A) : Prop :=
  forall st, rtc index_step (world st) (world (snd (m st))).

(** The queries sent to the store. *)
Definition queries_of (tr : list Event) : list QueryPoints :=
  omap (fun e => match e with EvQuery q => Some q | _ => None end) tr.

(** A point whose id can be computed again from its payload. *)
Definition keyed_by_payload (p : PointStruct) : Prop :=
  Id p = uniqueID (GetStringValue (Payload p !! "file_path"))
                  (GetStringValue (Payload p !! "function")).

(** Every point is filed under its own id, and that id is the identity of
    the path and function name in its payload. *)
Definition store_keyed (points : gmap string PointStruct) : Prop :=
  forall id p, points !! id = Some p -> Id p = id /\ keyed_by_payload p.

(** Writing a list of points in order, as accepted upserts do. *)
Definition writes (ps : list PointStruct) (points : gmap string PointStruct)
  : gmap string PointStruct :=
  fold_left (fun m p => <[Id p := p]> m) ps points.

(** Services that answer by what they are asked, not by how often. *)
Definition stateless (env : Env) : Prop :=
  (forall n n' url contentType body,
     http_Post env n url contentType body
     = http_Post env n' url contentType body) /\
  (forall n n' req, qdrant_Upsert env n req = qdrant_Upsert env n' req).

(** Two runs of [m] from states with the same counters return the same
    value and the same counters, and write the same points. *)
Definition same_writes {A : Type} (m : M IndexState A) : Prop :=
  forall st1 st2,
    stats st1 = stats st2 ->
    fst (m st1) = fst (m st2) /\
    stats (snd (m st1)) = stats (snd (m st2)) /\
    exists ps,
      store (world (snd (m st1))) = writes ps (store (world st1)) /\
      store (world (snd (m st2))) = writes ps (store (world st2)).

(** The node of the last capture of a given name in a match. *)
Definition last_capture (name : string) (cs : list QueryCapture)
  : option Node :=
  CapNode <$> last (filter (fun c => CaptureNameForId (Index c) = name) cs).

(** The characters [%d] can print. *)
Definition digit_or_minus (c : ascii) : Prop :=
  In c (list_ascii_of_string "-0123456789").

(* ===================================================================== *)
(** * Where requests go *)
(* ===================================================================== *)

(** A call that goes where the configuration says: an embedding request
    names the configured model and is posted to the configured URL as JSON;
    an upsert carries the one point of a chunk; a query asks the collection
    of the index for points with their payloads. *)
Definition addressed (env : Env) (e : Event) : Prop :=
  match e with
  | EvMarshal r => req_Model r = embeddingModel env
  | EvPost url contentType _ =>
      url = ollamaURL env /\ contentType = "application/json"
  | EvUpsert r _ => exists path f embedding, r = upsertOf path f embedding
  | EvQuery q => qp_CollectionName q = CollectionName /\ qp_WithPayload q = true
  | _ => True
  end.

(** [m] adds to the log of calls, and only calls that satisfy [P]. *)
Definition sends {A : Type} (P : Event -> Prop) (m : M IndexState A) : Prop :=
  forall st,
    exists evs,
      trace (world (snd (m st))) = trace (world st) ++ evs /\ Forall P evs.

(* ===================================================================== *)
(** * The text form of a name-based UUID *)
(* ===================================================================== *)

Definition is_hex (c : ascii) : bool :=
  existsb (Ascii.eqb c) (list_ascii_of_string Uuid.hextable).

(** One position of a pattern: [x] stands for a lower-case hex digit, [v]
    for one of 8, 9, a, b (the RFC 4122 variant), any other character for
    itself. *)
Definition matches_class (p c : ascii) : bool :=
  if Ascii.eqb p "x" then is_hex c
  else if Ascii.eqb p "v" then existsb (Ascii.eqb c) (list_ascii_of_string "89ab")
  else Ascii.eqb p c.

Fixpoint matches_pattern (p s : string) : bool :=
  match p, s with
  | EmptyString, EmptyString => true
  | String pc p', String c s' => matches_class pc c && matches_pattern p' s'
  | _, _ => false
  end.

(** The canonical text of a version-5 UUID. *)
Definition is_uuid_v5 (s : string) : bool :=
  matches_pattern "xxxxxxxx-xxxx-5xxx-vxxx-xxxxxxxxxxxx" s.

(* ===================================================================== *)
(** * Startup: main and ensureCollection *)
(* ===================================================================== *)

Module Startup.

Definition VectorDimension : Z := 4096.

Inductive Distance : Type :=
| Distance_Cosine
| Distance_Euclid
| Distance_Dot
| Distance_Manhattan.

Record VectorParams := { Size : Z; Distance_ : Distance }.

Record CreateCollection := {
  cc_CollectionName : string;
  cc_VectorsConfig : VectorParams
}.

Record Config := { Host : string; Port : Z; UseTLS : bool }.

(** The errors of the startup: a [*strconv.NumError] with its fields, or
    the error of a service. *)
Inductive error : Type :=
| NumError (Func Num Err : string)
| ServiceError (msg : string).

(** How a function ends: it returns, or [log.Fatalf] ends the process (the
    format and its operand are kept as they are passed). *)
Inductive Exit (A : Type) : Type :=
| Returned (a : A)
| Fatalf (format : string) (err : error).

Arguments Returned {A} a.
Arguments Fatalf {A} format err.

(** The calls that leave the program during startup, in call order. *)
Inductive Call : Type :=
| CallNewClient (config : Config)
| CallCollectionExists (name : string)
| CallCreateCollection (req : CreateCollection) (ok : bool)
| CallLog (msg : string)
| CallPrintln (msg : string)
| CallServeStdio (tools : list string)
| CallClose.

(** The process and the store as the startup sees them: the calls made, the
    collections with their vector parameters, and the two global variables
    the handlers read. *)
Record Process := {
  calls : list Call;
  collections : gmap string VectorParams;
  g_ollamaURL : string;
  g_embeddingModel : string
}.

(** The process environment and the answers of the services.  An accepted
    [CreateCollection] is taken to add the collection with the parameters
    asked for, a refused one to leave the collections as they were. *)
Record Services := {
  environ : gmap string string;
  qdrant_NewClient : Config -> option string;
  qdrant_CollectionExists : gmap string VectorParams -> string -> result bool;
  qdrant_CreateCollection : gmap string VectorParams -> CreateCollection ->
                            option string;
  server_ServeStdio : option string
}.

Definition call (c : Call) : M Process unit :=
  fun s => (tt, {| calls := calls s ++ [c]; collections := collections s;
                   g_ollamaURL := g_ollamaURL s;
                   g_embeddingModel := g_embeddingModel s |}).

Definition read_collections : M Process (gmap string VectorParams) :=
  fun s => (collections s, s).

Definition add_collection (req : CreateCollection) : M Process unit :=
  fun s => (tt, {| calls := calls s;
                   collections := <[cc_CollectionName req := cc_VectorsConfig req]>
                                    (collections s);
                   g_ollamaURL := g_ollamaURL s;
                   g_embeddingModel := g_embeddingModel s |}).

Definition set_ollamaURL (v : string) : M Process unit :=
  fun s => (tt, {| calls := calls s; collections := collections s;
                   g_ollamaURL := v;
                   g_embeddingModel := g_embeddingModel s |}).

Definition set_embeddingModel (v : string) : M Process unit :=
  fun s => (tt, {| calls := calls s; collections := collections s;
                   g_ollamaURL := g_ollamaURL s;
                   g_embeddingModel := v |}).

(** [os.LookupEnv] on the process environment. *)
Definition getEnvOrDefault (svc : Services) (key fallback : string) : string :=
  match environ svc !! key with
  | Some value => value
  | None => fallback
  end.

(** [strconv.Atoi] where [int] has 64 bits: an optional sign and decimal
    digits; the scan stops with a syntax error at the first byte that is no
    digit and with a range error as soon as the digits read exceed 64
    bits. *)
Definition digit (c : ascii) : option Z :=
  let v := Z.of_N (N_of_ascii c) - 48 in
  if (0 <=? v) && (v <=? 9) then Some v else None.

Inductive ScanError : Type := ErrSyntax | ErrRange.

Fixpoint scan (n : Z) (cs : list ascii) : Z + ScanError :=
  match cs with
  | [] => inl n
  | c :: cs' =>
      match digit c with
      | None => inr ErrSyntax
      | Some v => if 2 ^ 64 <=? n * 10 + v then inr ErrRange
                  else scan (n * 10 + v) cs'
      end
  end.

Definition Atoi (s : string) : Z + error :=
  let syntax := inr (NumError "Atoi" s "invalid syntax") in
  let range := inr (NumError "Atoi" s "value out of range") in
  match list_ascii_of_string s with
  | [] => syntax
  | c :: rest =>
      let neg := Ascii.eqb c "-" in
      let body := if neg || Ascii.eqb c "+" then rest else c :: rest in
      match body with
      | [] => syntax
      | _ =>
          match scan 0 body with
          | inr ErrSyntax => syntax
          | inr ErrRange => range
          | inl un =>
              if neg then (if 2 ^ 63 <? un then range else inl (- un))
              else (if 2 ^ 63 <=? un then range else inl un)
          end
      end
  end.

Definition ensureCollection (svc : Services) : M Process (Exit unit) :=
  call (CallCollectionExists CollectionName) ;;;
  cs <- read_collections ;;
  match qdrant_CollectionExists svc cs CollectionName with
  | Err e => ret (Fatalf "Error checking collection: %v" (ServiceError e))
  | Ok exists_ =>
      if negb exists_ then
        let req := {| cc_CollectionName := CollectionName;
                      cc_VectorsConfig := {| Size := VectorDimension;
                                             Distance_ := Distance_Cosine |} |} in
        match qdrant_CreateCollection svc cs req with
        | Some e =>
            call (CallCreateCollection req false) ;;;
            ret (Fatalf "Failed to create collection: %v" (ServiceError e))
        | None =>
            call (CallCreateCollection req true) ;;;
            add_collection req ;;;
            call (CallLog ("Created new Qdrant collection: " +:+ CollectionName)) ;;;
            ret (Returned tt)
        end
      else ret (Returned tt)
  end.

(** [main]: the configuration is read, the client made, the collection
    ensured and the two tools served until [ServeStdio] returns; the
    deferred [Close] runs when [main] returns, not when [log.Fatalf] ends
    the process.  The handlers that run while serving are the subject of
    the sections above. *)
Definition main (svc : Services) : M Process (Exit unit) :=
  set_ollamaURL (getEnvOrDefault svc "OLLAMA_URL" "http://localhost:11434") ;;;
  set_embeddingModel
    (getEnvOrDefault svc "EMBEDDING_MODEL" "qwen3-embedding:8b") ;;;
  let qdrantHost := getEnvOrDefault svc "QDRANT_HOST" "localhost" in
  let qdrantPortStr := getEnvOrDefault svc "QDRANT_PORT" "6334" in
  match Atoi qdrantPortStr with
  | inr err => ret (Fatalf "Invalid QDRANT_PORT: %v" err)
  | inl qdrantPort =>
      let config := {| Host := qdrantHost; Port := qdrantPort;
                       UseTLS := false |} in
      call (CallNewClient config) ;;;
      match qdrant_NewClient svc config with
      | Some e => ret (Fatalf "Failed to connect to Qdrant: %v" (ServiceError e))
      | None =>
          r <- ensureCollection svc ;;
          match r with
          | Fatalf format err => ret (Fatalf format err)
          | Returned _ =>
              call (CallPrintln "Starting Qdrant MCP Indexer on stdio...") ;;;
              call (CallServeStdio ["index_project"; "codebase_search"]) ;;;
              match server_ServeStdio svc with
              | Some e => call (CallLog ("serve stdio: " +:+ e))
              | None => ret tt
              end ;;;
              call CallClose ;;;
              ret (Returned tt)
          end
      end
  end.

(** The handlers read the two global variables of the process. *)
Definition configured (p : Process) (env : Env) : Prop :=
  ollamaURL env = g_ollamaURL p /\ embeddingModel env = g_embeddingModel p.

(** A store that answers [CollectionExists] with what it holds. *)
Definition truthful (svc : Services) : Prop :=
  forall cs name b,
    qdrant_CollectionExists svc cs name = Ok b ->
    b = bool_decide (is_Some (cs !! name)).

(** A sample: the collection is there with another vector size, and the
    port variable is set to the text given. *)
Definition services (port : option string) : Services :=
  {| environ := match port with
                | Some p => {[ "QDRANT_PORT" := p ]}
                | None => ∅
                end;
     qdrant_NewClient := fun _ => None;
     qdrant_CollectionExists := fun cs name =>
       Ok (bool_decide (is_Some (cs !! name)));
     qdrant_CreateCollection := fun _ _ => None;
     server_ServeStdio := None |}.

Definition old_cluster : Process :=
  {| calls := [];
     collections := {[ CollectionName := {| Size := 768;
                                            Distance_ := Distance_Dot |} ]};
     g_ollamaURL := "";
     g_embeddingModel := "" |}.

Definition new_cluster : Process :=
  {| calls := []; collections := ∅; g_ollamaURL := ""; g_embeddingModel := "" |}.

End Startup.

(* ===================================================================== *)
(** * More sample projects *)
(* ===================================================================== *)

Module Cases.

(** A file with two methods of the same name on different receivers. *)
Definition strings_go : string :=
  "package p" +:+ nl +:+ nl +:+ "func (a A) String() {}" +:+ nl +:+ nl +:+
  "func (b B) String() {}" +:+ nl.

Definition match_A : QueryMatch :=
  {| Captures := [Sample.capture 1 11 33 2; Sample.capture 0 22 28 2] |}.

Definition match_B : QueryMatch :=
  {| Captures := [Sample.capture 1 35 57 4; Sample.capture 0 46 52 4] |}.

(** Every service answers, the same way each time it is asked. *)
Definition env : Env :=
  {| ollamaURL := "http://localhost:11434";
     embeddingModel := "qwen3-embedding:8b";
     os_Lstat := fun p =>
       if string_eqb p "/proj"
       then Ok (Dir "proj" [File "s.go" (Ok strings_go)] None)
       else Err "no such file or directory";
     ts_matches := fun content =>
       if string_eqb content strings_go then [match_A; match_B] else [];
     sonic_Marshal := fun r => Ok (req_Input r);
     http_Post := fun _ _ _ _ => Sample.embedding_reply;
     qdrant_Upsert := fun _ _ => None;
     qdrant_Query := Sample.query;
     strconv_ParseFloat := fun _ => Err "invalid syntax";
     uint64_of_float := fun _ => 0 |}.

End Cases.

(* ===================================================================== *)
(** * Proofs *)
(* ===================================================================== *)

(** ** Reasoning principles *)

(** Induction over a file tree, with the hypothesis for every entry of a
    directory. *)
Lemma DirEntry_tree_ind (P : DirEntry -> Prop) :
  (forall n content, P (File n content)) ->
  (forall n entries readErr, Forall P entries -> P (Dir n entries readErr)) ->
  forall d, P d.
Proof.
  intros HF HD.
  fix IH 1.
  intros [n content | n entries readErr].
  - apply HF.
  - apply HD.
    induction entries as [| d1 ds IHds]; constructor.
    + apply IH.
    + exact IHds.
Qed.

Lemma string_eqb_true (a b : string) : string_eqb a b = true <-> a = b.
Proof. unfold string_eqb. apply bool_decide_eq_true. Qed.

Lemma string_eqb_false (a b : string) : string_eqb a b = false <-> a <> b.
Proof. unfold string_eqb. apply bool_decide_eq_false. Qed.

Lemma string_eqb_refl (a : string) : string_eqb a a = true.
Proof. by apply string_eqb_true. Qed.

Lemma append_String (c : ascii) (a b : string) :
  String c a +:+ b = String c (a +:+ b).
Proof. reflexivity. Qed.

Lemma append_nil_r (s : string) : s +:+ "" = s.
Proof. induction s as [| c s IH]; [done | by rewrite append_String, IH]. Qed.

Lemma append_assoc (a b c : string) : (a +:+ b) +:+ c = a +:+ (b +:+ c).
Proof.
  induction a as [| x a IH]; [done | by rewrite !append_String, IH].
Qed.

Lemma list_ascii_of_append (a b : string) :
  list_ascii_of_string (a +:+ b)
  = list_ascii_of_string a ++ list_ascii_of_string b.
Proof.
  induction a as [| x a IH]; [done |].
  rewrite append_String. simpl. by rewrite IH.
Qed.

(** ** The library models on known values *)

(** FIPS 180 test vectors for SHA-1. *)
Example sha1_abc :
  Uuid.encodeHex (Sha1.sum (bytes_of_string "abc"))
  = "a9993e364706816aba3e25717850c26c9cd0d89d".
Proof. vm_compute. reflexivity. Qed.

Example sha1_two_blocks :
  Uuid.encodeHex
    (Sha1.sum (bytes_of_string
                 "abcdbcdecdefdefgefghfghighijhijkijkljklmklmnlmnomnopnopq"))
  = "84983e441c3bd26ebaae4aa1f95129e5e54670f1".
Proof. vm_compute. reflexivity. Qed.

(** The version-5 UUID of "python.org" in the DNS name space. *)
Example uuid5_python_org :
  Uuid.String_ (Uuid.NewSHA1 Uuid.NameSpaceDNS (bytes_of_string "python.org"))
  = "886313e1-3b8a-5372-9b90-0c9aee199e5d".
Proof. vm_compute. reflexivity. Qed.

Example Ext_values :
  Filepath.Ext "/proj/a.go" = ".go" /\
  Filepath.Ext "/proj/.go" = ".go" /\
  Filepath.Ext "/proj/x.tar.gz" = ".gz" /\
  Filepath.Ext "/proj.d/Makefile" = "" /\
  Filepath.Ext "/proj/a.go/" = "".
Proof. vm_compute. repeat split. Qed.

(** [%.3f]: ties go to the even neighbour, the sign of a negative value
    that rounds to zero stays. *)
Example f3_values :
  Fmt.f3 (S754_finite false 7 (-3)) = "0.875" /\
  Fmt.f3 (S754_finite false 1 (-4)) = "0.062" /\
  Fmt.f3 (S754_finite true 3 (-4)) = "-0.188" /\
  Fmt.f3 (S754_finite true 1 (-20)) = "-0.000" /\
  Fmt.f3 (S754_finite false 3 2) = "12.000" /\
  Fmt.f3 (float32 (S754_finite false 0x1999999999999a (-56))) = "0.100".
Proof. vm_compute. repeat split. Qed.

(** The sample project, with its unreadable file, its failing first
    embedding call and its failing second upsert. *)
Example sample_run :
  fst (handleIndexProject Sample.env (Sample.index_request "/proj")
                          Sample.world0)
  = (NewToolResultText
       ("Indexing Complete." +:+ nl +:+ "Files Scanned: 3" +:+ nl +:+
        "Functions Indexed: 3" +:+ nl +:+ "Failed/Skipped: 3/1"),
     None).
Proof. vm_compute. reflexivity. Qed.

(** Counters far from the end of [int] just count. *)
Lemma iter_incr_small (n : nat) :
  Z.of_nat n < 2 ^ 63 -> Nat.iter n GoInt.incr 0 = Z.of_nat n.
Proof.
  induction n as [| n IH]; intros Hn; [done |].
  rewrite Nat.iter_succ, IH by lia.
  unfold GoInt.incr, GoInt.wrap_int.
  rewrite Z.mod_small by lia. lia.
Qed.

(** Unfolding the monad. *)
Ltac run := unfold bind, ret, liftW, count, emit; simpl.

(** ** The walk function on single entries *)

Lemma walkFn_failure env path d err st :
  walkFn env path (Failure d err) st = (Some err, st).
Proof. reflexivity. Qed.

Lemma walkFn_pruned_dir env path n entries readErr st :
  pruned n = true ->
  walkFn env path (Visit (Dir n entries readErr)) st = (Some SkipDir, st).
Proof. intros Hp. unfold walkFn. simpl. by rewrite Hp. Qed.

Lemma walkFn_kept_dir env path n entries readErr st :
  pruned n = false ->
  walkFn env path (Visit (Dir n entries readErr)) st = (None, st).
Proof. intros Hp. unfold walkFn. simpl. by rewrite Hp. Qed.

Lemma walkFn_other_file env path n content st :
  Filepath.Ext path <> ".go" ->
  walkFn env path (Visit (File n content)) st
  = (None, {| stats := incSkipped (stats st); world := world st |}).
Proof.
  intros Hext. unfold walkFn. simpl.
  apply string_eqb_false in Hext. by rewrite Hext.
Qed.

(** The equation of [walkDir]. *)
Lemma walkDir_eq fn path d :
  walkDir fn path d =
  (err <- fn path (Visit d) ;;
   match err with
   | Some e => if is_SkipDir e && IsDir d then ret None else ret (Some e)
   | None =>
       match d with
       | File _ _ => ret None
       | Dir _ entries readErr =>
           liftW (emit (EvReadDir path)) ;;;
           err <- match readErr with
                  | Some e => fn path (Failure (Some d) (OtherError e))
                  | None => ret None
                  end ;;
           match err with
           | Some e => if is_SkipDir e then ret None else ret (Some e)
           | None => eachEntry (walkDir fn) path entries
           end
       end
   end).
Proof. destruct d; reflexivity. Qed.

Lemma eachEntry_nil walk path st : eachEntry walk path [] st = (None, st).
Proof. reflexivity. Qed.

Lemma eachEntry_cons walk path d1 ds :
  eachEntry walk path (d1 :: ds) =
  (err <- walk (Filepath.Join path (Name d1)) d1 ;;
   match err with
   | Some e => if is_SkipDir e then ret None else ret (Some e)
   | None => eachEntry walk path ds
   end).
Proof. reflexivity. Qed.

Lemma walkDir_pruned env path n entries readErr st :
  pruned n = true ->
  walkDir (walkFn env) path (Dir n entries readErr) st = (None, st).
Proof.
  intros Hp. rewrite walkDir_eq. unfold bind.
  by rewrite walkFn_pruned_dir.
Qed.

(** C7: a file whose extension is not ".go" is counted as skipped when the
    walk reaches it, and nothing else happens: the trace is unchanged, so
    the file is neither read nor parsed, and the walk goes on. *)
Theorem non_go_file_is_skipped_unread env path n content st :
  Filepath.Ext path <> ".go" ->
  walkDir (walkFn env) path (File n content) st
  = (None, {| stats := {| Files := Files (stats st);
                          Chunks := Chunks (stats st);
                          Skipped := GoInt.incr (Skipped (stats st));
                          Failed := Failed (stats st) |};
              world := world st |}).
Proof.
  intros Hext. rewrite walkDir_eq. unfold bind.
  by rewrite walkFn_other_file.
Qed.

Lemma non_go_file_is_skipped_unread_witness :
  Filepath.Ext "/proj/README.md" <> ".go" /\
  walkDir (walkFn Sample.env) "/proj/README.md"
          (File "README.md" (Ok "readme")) Sample.state0
  = (None, {| stats := {| Files := 0; Chunks := 0; Skipped := 1; Failed := 0 |};
              world := Sample.world0 |}).
Proof.
  assert (H : Filepath.Ext "/proj/README.md" <> ".go") by (vm_compute; discriminate).
  split; [exact H |].
  exact (non_go_file_is_skipped_unread Sample.env "/proj/README.md" "README.md"
           (Ok "readme") Sample.state0 H).
Defined.

(** ** Pruned directories *)

Lemma pruned_spec (n : string) :
  pruned n = true <->
  HasPrefix n "." = true \/ n = "node_modules" \/ n = "vendor".
Proof.
  unfold pruned. rewrite !orb_true_iff, !string_eqb_true. tauto.
Qed.

(** C9: when the root path is a directory whose base name starts with "."
    or is "vendor" or "node_modules", the walk prunes it at once: nothing
    is listed or read, and the report shows zero everywhere. *)
Theorem pruned_root_reports_nothing env request rootPath n entries readErr w :
  RequireString request "path" = Ok rootPath ->
  os_Lstat env rootPath = Ok (Dir n entries readErr) ->
  HasPrefix n "." = true \/ n = "vendor" \/ n = "node_modules" ->
  handleIndexProject env request w
  = ((NewToolResultText
        ("Indexing Complete." +:+ nl +:+ "Files Scanned: 0" +:+ nl +:+
         "Functions Indexed: 0" +:+ nl +:+ "Failed/Skipped: 0/0"),
      None), w).
Proof.
  intros Hreq Hstat Hname.
  assert (Hp : pruned n = true) by (apply pruned_spec; tauto).
  unfold handleIndexProject. rewrite Hreq.
  unfold bind, indexRun, WalkDir, bind. rewrite Hstat.
  rewrite walkDir_pruned by exact Hp.
  destruct w; reflexivity.
Qed.

Lemma pruned_root_reports_nothing_witness :
  handleIndexProject Sample.hidden_root_env
    (Sample.index_request "/home/u/.cache") Sample.world0
  = ((NewToolResultText
        ("Indexing Complete." +:+ nl +:+ "Files Scanned: 0" +:+ nl +:+
         "Functions Indexed: 0" +:+ nl +:+ "Failed/Skipped: 0/0"),
      None), Sample.world0).
Proof.
  apply (pruned_root_reports_nothing Sample.hidden_root_env
           (Sample.index_request "/home/u/.cache") "/home/u/.cache"
           ".cache" [File "a.go" (Ok Sample.foo_go)] None Sample.world0).
  - vm_compute. reflexivity.
  - vm_compute. reflexivity.
  - left. vm_compute. reflexivity.
Defined.

(** ** The report *)

Lemma RequireString_present key value args :
  RequireString {| Arguments_ := <[key := ArgString value]> args |} key
  = Ok value.
Proof. unfold RequireString. simpl. by rewrite lookup_insert_eq. Qed.

(** C5: a call that passes a path is answered with the report text and a
    nil error, whatever the walk returned and whatever failed on the way;
    in particular when the root cannot even be stat'ed, the walk ends with
    that error and the handler still reports (all zeros). *)
Theorem index_project_always_reports env rootPath args w :
  let request := {| Arguments_ := <["path" := ArgString rootPath]> args |} in
  (exists s w',
     handleIndexProject env request w
     = ((NewToolResultText (report s), None), w')) /\
  (forall err s w',
     indexRun env rootPath w = ((err, s), w') ->
     handleIndexProject env request w
     = ((NewToolResultText (report s), None), w')) /\
  (forall e,
     os_Lstat env rootPath = Err e ->
     indexRun env rootPath w = ((Some (OtherError e), no_stats), w) /\
     handleIndexProject env request w
     = ((NewToolResultText (report no_stats), None), w)).
Proof.
  intros request.
  assert (Hreq : RequireString request "path" = Ok rootPath)
    by apply RequireString_present.
  assert (Hrun : forall err s w',
             indexRun env rootPath w = ((err, s), w') ->
             handleIndexProject env request w
             = ((NewToolResultText (report s), None), w')).
  { intros err s w' Hrun. unfold handleIndexProject. rewrite Hreq.
    unfold bind. rewrite Hrun. reflexivity. }
  assert (Hlost : forall e, os_Lstat env rootPath = Err e ->
             indexRun env rootPath w = ((Some (OtherError e), no_stats), w)).
  { intros e He. unfold indexRun, WalkDir, bind. rewrite He.
    rewrite walkFn_failure. destruct w; reflexivity. }
  split; [| split].
  - destruct (indexRun env rootPath w) as [[err s] w'] eqn:E.
    exists s, w'. eapply Hrun; eauto.
  - exact Hrun.
  - intros e He. split; [by apply Hlost |].
    eapply Hrun. by apply Hlost.
Qed.

(** The sample with no file system behind the root: the walk ends with the
    error of [os.Lstat], and the report is returned. *)
Lemma index_project_always_reports_witness :
  indexRun Sample.lost_env "/proj" Sample.world0
  = ((Some (OtherError "no such file or directory"), no_stats), Sample.world0) /\
  handleIndexProject Sample.lost_env
    {| Arguments_ := <["path" := ArgString "/proj"]> ∅ |} Sample.world0
  = ((NewToolResultText (report no_stats), None), Sample.world0).
Proof.
  refine (proj2 (proj2 (index_project_always_reports Sample.lost_env "/proj"
                          ∅ Sample.world0)) "no such file or directory" _).
  vm_compute. reflexivity.
Defined.

(** ** The embedding client *)

Lemma posts_of_app (a b : list Event) : posts_of (a ++ b) = posts_of a ++ posts_of b.
Proof. unfold posts_of. apply omap_app. Qed.

Lemma reads_of_app (a b : list Event) : reads_of (a ++ b) = reads_of a ++ reads_of b.
Proof. unfold reads_of. apply omap_app. Qed.

Lemma inputs_of_app (a b : list Event) : inputs_of (a ++ b) = inputs_of a ++ inputs_of b.
Proof. unfold inputs_of. apply omap_app. Qed.

Lemma upserted_of_app (a b : list Event) :
  upserted_of (a ++ b) = upserted_of a ++ upserted_of b.
Proof. unfold upserted_of. apply omap_app. Qed.

(** Whatever the answer, a call of [getOllamaEmbedding] leaves the store
    alone and adds to the trace its marshalling and at most one post. *)
Lemma getOllamaEmbedding_trace env text w r w' :
  getOllamaEmbedding env text w = (r, w') ->
  store w' = store w /\
  exists posted,
    trace w' = trace w
               ++ EvMarshal {| req_Model := embeddingModel env; req_Input := text |}
               :: posted /\
    (posted = [] \/
     exists body, posted = [EvPost (ollamaURL env) "application/json" body]).
Proof.
  unfold getOllamaEmbedding. run. intros H.
  destruct (sonic_Marshal env _) as [jsonData | e].
  - assert (Hw : w' = {| trace := (trace w ++ [EvMarshal
        {| req_Model := embeddingModel env; req_Input := text |}])
        ++ [EvPost (ollamaURL env) "application/json" jsonData];
        store := store w |}).
    { unfold posts_so_far in H. simpl in H.
      repeat case_match; by simplify_eq. }
    subst w'. simpl. split; [done |].
    eexists. split; [by rewrite <- app_assoc |]. right. by eexists.
  - simplify_eq. simpl. split; [done |]. exists []. auto.
Qed.

(** C4: with the request marshalled, exactly one post is made for the
    input; the call fails when the post fails, when the status is not 200
    and when the decoded response has no embedding; and a successful call
    returns the first embedding of the response, each component converted
    to float32. *)
Theorem getOllamaEmbedding_contract env text jsonData w :
  sonic_Marshal env {| req_Model := embeddingModel env; req_Input := text |}
  = Ok jsonData ->
  let outcome := http_Post env (length (posts_of (trace w))) (ollamaURL env)
                           "application/json" jsonData in
  let '(r, w') := getOllamaEmbedding env text w in
  posts_of (trace w') = posts_of (trace w) ++ [jsonData] /\
  (forall e, outcome = PostFailed e -> is_ok r = false) /\
  (forall status body,
     outcome = PostResponse status body -> status <> 200 -> is_ok r = false) /\
  (forall status resp,
     outcome = PostResponse status (Ok resp) -> Embeddings resp = [] ->
     is_ok r = false) /\
  (forall v,
     r = Ok v ->
     exists resp first rest,
       outcome = PostResponse 200 (Ok resp) /\
       Embeddings resp = first :: rest /\
       v = map float32 first).
Proof.
  intros Hm outcome.
  unfold getOllamaEmbedding. run. rewrite Hm.
  unfold posts_so_far. simpl.
  rewrite posts_of_app. simpl. rewrite app_nil_r. subst outcome.
  set (w1 := {| trace := _; store := _ |}).
  assert (Hposts : posts_of (trace w1) = posts_of (trace w) ++ [jsonData]).
  { subst w1. simpl. by rewrite !posts_of_app, <- app_assoc. }
  destruct (http_Post env _ _ _ _) as [e | status body] eqn:Hout.
  { repeat split; try done. }
  destruct (status =? StatusOK) eqn:Hst; simpl.
  2:{ apply Z.eqb_neq in Hst. repeat split; try done. }
  apply Z.eqb_eq in Hst. unfold StatusOK in Hst. subst status.
  destruct body as [resp | e].
  2:{ repeat split; try done. }
  destruct (Embeddings resp) as [| first rest] eqn:Hemb.
  { repeat split; try done. }
  repeat split; try done.
  - intros status' body' [= <- <-] Hne. by destruct Hne.
  - intros status' resp' [= <- <-]. congruence.
  - intros v [= <-]. by exists resp, first, rest.
Qed.

Lemma getOllamaEmbedding_contract_witness :
  let '(r, w') := getOllamaEmbedding Sample.small_env "func Foo() {}"
                                     Sample.world0 in
  r = Ok [S754_finite false 8388608 (-24); S754_finite true 12582912 (-24)] /\
  length (posts_of (trace w')) = 1%nat.
Proof.
  pose proof (getOllamaEmbedding_contract Sample.small_env "func Foo() {}"
                _ Sample.world0 eq_refl) as H.
  destruct (getOllamaEmbedding Sample.small_env "func Foo() {}" Sample.world0)
    as [r w'] eqn:E.
  destruct H as (Hposts & _ & _ & _ & Hok).
  split.
  - vm_compute in E. by simplify_eq.
  - rewrite Hposts. reflexivity.
Defined.

(** ** Search results *)

Lemma formatResults_from (acc : string) (rs : list ScoredPoint) :
  fold_left (fun responseText point => responseText +:+ formatPoint point) rs acc
  = acc +:+ formatResults rs.
Proof.
  unfold formatResults. revert acc.
  induction rs as [| r rs IH]; intros acc; simpl.
  - by rewrite append_nil_r.
  - rewrite IH, (IH ("" +:+ formatPoint r)).
    change ("" +:+ formatPoint r) with (formatPoint r).
    by rewrite append_assoc.
Qed.

(** The blocks come in the order of the results. *)
Lemma formatResults_cons (r : ScoredPoint) (rs : list ScoredPoint) :
  formatResults (r :: rs) = formatPoint r +:+ formatResults rs.
Proof.
  unfold formatResults at 1. simpl.
  change ("" +:+ formatPoint r) with (formatPoint r).
  apply formatResults_from.
Qed.

Lemma formatPoint_not_empty (r : ScoredPoint) : formatPoint r <> "".
Proof. unfold formatPoint. rewrite append_String. discriminate. Qed.

Lemma formatResults_empty_iff (rs : list ScoredPoint) :
  formatResults rs = "" <-> rs = [].
Proof.
  split; [| by intros ->].
  destruct rs as [| r rs]; [done |].
  rewrite formatResults_cons. unfold formatPoint.
  rewrite !append_String. discriminate.
Qed.

(** What [codebase_search] prints for a point written by
    [handleIndexProject]: the payload has no "line_number" entry, so the
    line printed is 0 whatever "line_start" holds. *)
Lemma formatPoint_indexed id path f score :
  formatPoint {| sp_Id := id; sp_Payload := indexPayload path f;
                 sp_Score := score |}
  = "File: " +:+ path +:+ " (Line: 0)" +:+ nl +:+
    "Score: " +:+ Fmt.f3 score +:+ nl +:+
    "```go" +:+ nl +:+ funcBody f +:+ nl +:+ "```" +:+ nl +:+ nl +:+
    "---" +:+ nl.
Proof. reflexivity. Qed.

Lemma indexPayload_line_start path f :
  indexPayload path f !! "line_start" = Some (IntegerValue (startLine f)).
Proof. reflexivity. Qed.

Lemma codebase_search_answer env request query w v w1 :
  RequireString request "query" = Ok query ->
  getOllamaEmbedding env query w = (Ok v, w1) ->
  codebase_search env request w
  = (match qdrant_Query env (store w1) (searchRequest env request v) with
     | Err e => (NewToolResultError ("Qdrant search error: " +:+ e), None)
     | Ok rs => (NewToolResultText
                   (if string_eqb (formatResults rs) ""
                    then "No relevant code found." else formatResults rs),
                 None)
     end,
     {| trace := trace w1 ++ [EvQuery (searchRequest env request v)];
        store := store w1 |}).
Proof.
  intros Hq Hemb. unfold codebase_search. rewrite Hq.
  unfold bind. rewrite Hemb. unfold emit, read_store. simpl.
  by destruct (qdrant_Query env (store w1) (searchRequest env request v)).
Qed.

(** C8: when the query vector was obtained and the store answers the query
    with no result, the handler returns the text "No relevant code found.",
    which is not empty, with a nil error; a failing query returns an error
    result instead. *)
Theorem empty_search_returns_sentinel env request query w v w1 :
  RequireString request "query" = Ok query ->
  getOllamaEmbedding env query w = (Ok v, w1) ->
  qdrant_Query env (store w1) (searchRequest env request v) = Ok [] ->
  fst (codebase_search env request w)
  = (NewToolResultText "No relevant code found.", None) /\
  "No relevant code found." <> "" /\
  forall env' e,
    getOllamaEmbedding env' query w = (Ok v, w1) ->
    qdrant_Query env' (store w1) (searchRequest env' request v) = Err e ->
    fst (codebase_search env' request w)
    = (NewToolResultError ("Qdrant search error: " +:+ e), None).
Proof.
  intros Hq Hemb Hres. split; [| split].
  - rewrite (codebase_search_answer _ _ _ _ _ _ Hq Hemb), Hres. reflexivity.
  - discriminate.
  - intros env' e Hemb' Hres'.
    rewrite (codebase_search_answer _ _ _ _ _ _ Hq Hemb'), Hres'. reflexivity.
Qed.

Lemma empty_search_returns_sentinel_witness :
  fst (codebase_search Sample.small_env (Sample.search_request "foo")
                       Sample.world0)
  = (NewToolResultText "No relevant code found.", None).
Proof.
  refine (proj1 (empty_search_returns_sentinel Sample.small_env
                   (Sample.search_request "foo") "foo" Sample.world0
                   _ _ _ _ _)).
  - vm_compute. reflexivity.
  - vm_compute. reflexivity.
  - vm_compute. reflexivity.
Defined.

(** C1: indexing the one-file sample project stores the function [Foo] of
    /proj/a.go with "line_start" 3, and a search that returns this point
    prints its path, score and snippet but "Line: 0": the search handler
    reads the payload entry "line_number", which the indexer never
    writes. *)
Theorem search_prints_line_zero_for_indexed_point :
  let '(_, w1) := handleIndexProject Sample.small_env
                    (Sample.index_request "/proj") Sample.world0 in
  (exists p,
     store w1 !! uniqueID "/proj/a.go" "Foo" = Some p /\
     Payload p !! "file_path" = Some (StringValue "/proj/a.go") /\
     Payload p !! "line_start" = Some (IntegerValue 3) /\
     Payload p !! "line_number" = None) /\
  fst (codebase_search Sample.small_env (Sample.search_request "Foo") w1)
  = (NewToolResultText
       ("File: /proj/a.go (Line: 0)" +:+ nl +:+
        "Score: 0.875" +:+ nl +:+
        "```go" +:+ nl +:+ "func Foo() {}" +:+ nl +:+ "```" +:+ nl +:+ nl +:+
        "---" +:+ nl),
     None).
Proof.
  vm_compute. split; [| reflexivity].
  eexists. repeat split; reflexivity.
Qed.

(** ** Chunk identity *)








(** ** Pruned directories are never entered *)

Lemma Name_hide d : Name (hide d) = Name d.
Proof.
  destruct d as [n c | n es r]; [done |].
  cbn [hide]. by destruct (pruned n).
Qed.

(** The walk function looks at the kind, the name and, for a file, the
    content of an entry, never at what a directory holds. *)
Lemma walkFn_hide env path d st :
  walkFn env path (Visit (hide d)) st = walkFn env path (Visit d) st.
Proof.
  destruct d as [n c | n es r]; [done |].
  cbn [hide]. destruct (pruned n) eqn:Hp.
  - by rewrite !walkFn_pruned_dir.
  - by rewrite !walkFn_kept_dir.
Qed.

Lemma walkDir_hide env d :
  forall path st,
    walkDir (walkFn env) path (hide d) st = walkDir (walkFn env) path d st.
Proof.
  induction d as [n c | n es r IH] using DirEntry_tree_ind; intros path st.
  - reflexivity.
  - destruct (pruned n) eqn:Hp.
    + cbn [hide]. rewrite Hp. by rewrite !walkDir_pruned.
    + rewrite (walkDir_eq _ _ (hide _)), (walkDir_eq _ _ (Dir n es r)).
      unfold bind. rewrite walkFn_hide.
      cbn [hide]. rewrite Hp.
      rewrite walkFn_kept_dir by done.
      destruct (liftW (emit (EvReadDir path)) st) as [[] st1].
      assert (Hloop : forall st2,
                 eachEntry (walkDir (walkFn env)) path (map hide es) st2
                 = eachEntry (walkDir (walkFn env)) path es st2).
      { induction IH as [| d1 ds Hd1 _ IHds]; intros st2; [done |].
        simpl map. rewrite !eachEntry_cons. unfold bind.
        rewrite Name_hide, Hd1.
        destruct (walkDir (walkFn env) (Filepath.Join path (Name d1)) d1 st2)
          as [[e |] st3]; [done |].
        apply IHds. }
      destruct r as [e |].
      * by rewrite !walkFn_failure.
      * unfold ret. apply Hloop.
Qed.

(** The walk depends on its function through the function's answers. *)
Lemma walkDir_ext fn fn' d :
  (forall path arg st, fn path arg st = fn' path arg st) ->
  forall path st, walkDir fn path d st = walkDir fn' path d st.
Proof.
  intros Hfn.
  induction d as [n c | n es r IH] using DirEntry_tree_ind; intros path st;
    rewrite (walkDir_eq fn), (walkDir_eq fn'); unfold bind; rewrite Hfn.
  - reflexivity.
  - destruct (fn' path (Visit (Dir n es r)) st) as [[e |] st1]; [done |].
    destruct (liftW (emit (EvReadDir path)) st1) as [[] st2].
    assert (Hloop : forall st3,
               eachEntry (walkDir fn) path es st3
               = eachEntry (walkDir fn') path es st3).
    { induction IH as [| d1 ds Hd1 _ IHds]; intros st3; [done |].
      rewrite !eachEntry_cons. unfold bind. rewrite Hd1.
      destruct (walkDir fn' (Filepath.Join path (Name d1)) d1 st3)
        as [[e |] st4]; [done |].
      apply IHds. }
    destruct r as [e |].
    + rewrite Hfn.
      destruct (fn' path _ st2) as [[e' |] st3]; [done |].
      apply Hloop.
    + unfold ret. apply Hloop.
Qed.

(** Emptying the pruned directories changes the file system only. *)
Lemma indexMatches_hide_pruned env path content ms st :
  indexMatches (hide_pruned env) path content ms st
  = indexMatches env path content ms st.
Proof.
  revert st. induction ms as [| m ms IH]; intros st; [done |].
  simpl. unfold bind.
  change (indexMatch (hide_pruned env)) with (indexMatch env).
  destruct (indexMatch env path content m st) as [[] st1]. apply IH.
Qed.

Lemma walkFn_hide_pruned env path arg st :
  walkFn (hide_pruned env) path arg st = walkFn env path arg st.
Proof.
  destruct arg as [d | d e]; [| done].
  unfold walkFn.
  destruct (IsDir d); [done |].
  destruct (negb _); [done |].
  destruct (ReadFile d) as [content | e]; [| done].
  unfold bind.
  destruct (liftW (emit (EvReadFile path true)) st) as [[] st1].
  destruct (count incFiles st1) as [[] st2].
  destruct (liftW (emit (EvParse content)) st2) as [[] st3].
  change (ts_matches (hide_pruned env)) with (ts_matches env).
  by rewrite indexMatches_hide_pruned.
Qed.

(** C6: at a directory whose name starts with "." or is "vendor" or
    "node_modules" the walk does nothing and goes on: no listing, no read,
    no parse, no request, counters untouched.  And at any depth what such a
    directory holds cannot matter: the whole run (result, trace and store)
    is the one of the same tree with every such directory emptied. *)
Theorem pruned_directories_are_not_entered env path n entries readErr st :
  HasPrefix n "." = true \/ n = "vendor" \/ n = "node_modules" ->
  walkDir (walkFn env) path (Dir n entries readErr) st = (None, st) /\
  visible path (Dir n entries readErr) = [] /\
  forall request w,
    handleIndexProject env request w
    = handleIndexProject (hide_pruned env) request w.
Proof.
  intros Hn.
  assert (Hp : pruned n = true) by (apply pruned_spec; tauto).
  split; [by apply walkDir_pruned |].
  split; [simpl; by rewrite Hp |].
  intros request w. unfold handleIndexProject.
  destruct (RequireString request "path") as [rootPath | e]; [| done].
  unfold bind, indexRun, WalkDir, bind. simpl.
  destruct (os_Lstat env rootPath) as [d | e].
  - rewrite (walkDir_ext (walkFn (hide_pruned env)) (walkFn env))
      by apply walkFn_hide_pruned.
    by rewrite walkDir_hide.
  - reflexivity.
Qed.

Lemma pruned_directories_are_not_entered_witness :
  walkDir (walkFn Sample.env) "/proj/.git"
          (Dir ".git" [File "hook.go" (Ok Sample.foo_go)] None) Sample.state0
  = (None, Sample.state0).
Proof.
  refine (proj1 (pruned_directories_are_not_entered Sample.env "/proj/.git"
                   ".git" [File "hook.go" (Ok Sample.foo_go)] None
                   Sample.state0 _)).
  left. vm_compute. reflexivity.
Defined.

(** ** Accounting for a run *)

Lemma iter_incr_add (a b : nat) (x : Z) :
  Nat.iter (a + b) GoInt.incr x = Nat.iter b GoInt.incr (Nat.iter a GoInt.incr x).
Proof. by rewrite Nat.add_comm, Nat.iter_add. Qed.

Lemma accounts_refl st : accounts st st [] [] 0 0 0.
Proof.
  split; rewrite ?app_nil_r; try done.
  exists 0%nat, 0%nat. by rewrite Nat.add_0_r.
Qed.

Lemma accounts_trans st1 st2 st3 r1 r2 i1 i2 f1 f2 s1 s2 n1 n2 :
  accounts st1 st2 r1 i1 f1 s1 n1 ->
  accounts st2 st3 r2 i2 f2 s2 n2 ->
  accounts st1 st3 (r1 ++ r2) (i1 ++ i2) (f1 + f2) (s1 + s2) (n1 + n2).
Proof.
  intros [Hr1 Hi1 Hf1 Hs1 (a1 & b1 & Hn1 & Hu1 & Hc1 & Hx1)]
         [Hr2 Hi2 Hf2 Hs2 (a2 & b2 & Hn2 & Hu2 & Hc2 & Hx2)].
  split.
  - by rewrite Hr2, Hr1, app_assoc.
  - by rewrite Hi2, Hi1, app_assoc.
  - by rewrite Hf2, Hf1, iter_incr_add.
  - by rewrite Hs2, Hs1, iter_incr_add.
  - exists (a1 + a2)%nat, (b1 + b2)%nat. repeat split.
    + lia.
    + rewrite Hu2, Hu1. lia.
    + by rewrite Hc2, Hc1, iter_incr_add.
    + by rewrite Hx2, Hx1, iter_incr_add.
Qed.

Lemma tally_nil env st : tally env st st [].
Proof. apply accounts_refl. Qed.

Lemma tally_app env st1 st2 st3 v1 v2 :
  tally env st1 st2 v1 -> tally env st2 st3 v2 -> tally env st1 st3 (v1 ++ v2).
Proof.
  unfold tally. intros H1 H2.
  rewrite !flat_map_app, !sum_list_with_app.
  by eapply accounts_trans.
Qed.

(** Projections of a trace that grew by a few known events. *)
Ltac trace_simpl :=
  simpl;
  rewrite ?reads_of_app, ?inputs_of_app, ?upserted_of_app; simpl;
  rewrite ?app_nil_r, ?length_app; simpl.

(** Closing the item count of [accounts] with the given split. *)
Ltac items indexed failed :=
  exists indexed, failed; trace_simpl;
  repeat split; try done; try congruence; try lia.

(** One turn of the match loop: one embedding asked for, and one more
    chunk indexed or one more failure, never both and never neither. *)
Lemma indexMatch_accounts env path content m st :
  accounts st (snd (indexMatch env path content m st))
           [] [funcBody (extractDetails content m)] 0 0 1.
Proof.
  unfold indexMatch. unfold bind at 1. unfold liftW at 1.
  destruct (getOllamaEmbedding env _ (world st)) as [r w1] eqn:Hemb.
  destruct (getOllamaEmbedding_trace _ _ _ _ _ Hemb)
    as (Hstore & posted & Htrace & Hposted).
  assert (Hreads : reads_of (trace w1) = reads_of (trace (world st))).
  { rewrite Htrace. destruct Hposted as [-> | [body ->]]; by trace_simpl. }
  assert (Hinputs : inputs_of (trace w1)
                    = inputs_of (trace (world st))
                      ++ [funcBody (extractDetails content m)]).
  { rewrite Htrace. destruct Hposted as [-> | [body ->]]; by trace_simpl. }
  assert (Hups : upserted_of (trace w1) = upserted_of (trace (world st))).
  { rewrite Htrace. destruct Hposted as [-> | [body ->]]; by trace_simpl. }
  destruct r as [embedding | e].
  - run. unfold upserts_so_far. simpl.
    destruct (qdrant_Upsert env _ _) as [e |]; simpl.
    + split; trace_simpl; try done. items 0%nat 1%nat; rewrite Hups; lia.
    + split; trace_simpl; try done. items 1%nat 0%nat; rewrite Hups; lia.
  - run. split; trace_simpl; try done. items 0%nat 1%nat; rewrite Hups; lia.
Qed.

Lemma indexMatches_accounts env path content ms st :
  accounts st (snd (indexMatches env path content ms st))
           [] (map (fun m => funcBody (extractDetails content m)) ms)
           0 0 (length ms).
Proof.
  revert st. induction ms as [| m ms IH]; intros st.
  - apply accounts_refl.
  - simpl indexMatches. unfold bind.
    pose proof (indexMatch_accounts env path content m st) as Hm.
    destruct (indexMatch env path content m st) as [[] st1]. simpl in Hm.
    exact (accounts_trans _ _ _ _ _ _ _ _ _ _ _ _ _ Hm (IH st1)).
Qed.

(** The walk function on a file: it always answers nil, and accounts for
    the file by its kind. *)
Lemma walkFn_file_accounts env path n content st :
  exists st',
    walkFn env path (Visit (File n content)) st = (None, st') /\
    tally env st st' [(path, content)].
Proof.
  unfold tally, file_reads, file_inputs, file_scanned, file_skipped,
    file_items, is_go. simpl.
  unfold walkFn. simpl.
  destruct (string_eqb (Filepath.Ext path) ".go") eqn:Hext; simpl.
  - destruct content as [content | e]; simpl.
    + run.
      set (st1 := {| stats := incFiles (stats st); world := _ |}).
      pose proof (indexMatches_accounts env path content
                    (ts_matches env content) st1) as Hms.
      destruct (indexMatches env path content (ts_matches env content) st1)
        as [[] st2]. simpl in Hms.
      exists st2. split; [done |].
      assert (H1 : accounts st st1 [path] [] 1 0 0).
      { subst st1. split; trace_simpl; try done. items 0%nat 0%nat. }
      pose proof (accounts_trans _ _ _ _ _ _ _ _ _ _ _ _ _ H1 Hms) as H.
      simpl in H. unfold chunk_inputs. rewrite !app_nil_r, !Nat.add_0_r.
      exact H.
    + run. eexists. split; [done |].
      split; trace_simpl; try done. items 0%nat 1%nat.
  - run. eexists. split; [done |].
    split; trace_simpl; try done. items 0%nat 0%nat.
Qed.

Lemma reached_eq path d :
  reached path d =
  match d with
  | File _ content => ([(path, content)], None)
  | Dir n entries readErr =>
      if pruned n then ([], None)
      else
        match readErr with
        | Some e => ([], Some e)
        | None => reachedEach reached path entries
        end
  end.
Proof. by destruct d. Qed.

Lemma reachedEach_cons reach path d1 ds :
  reachedEach reach path (d1 :: ds) =
  let '(files1, stop) := reach (Filepath.Join path (Name d1)) d1 in
  match stop with
  | Some e => (files1, Some e)
  | None =>
      let '(files2, stop2) := reachedEach reach path ds in
      (files1 ++ files2, stop2)
  end.
Proof. reflexivity. Qed.

(** Whatever fails in reading files, embedding and upserting, the walk
    ends as the tree says, and has accounted for every file it reaches. *)
Lemma walkDir_accounts env d :
  forall path st,
    exists st',
      walkDir (walkFn env) path d st
      = (OtherError <$> snd (reached path d), st') /\
      tally env st st' (fst (reached path d)).
Proof.
  induction d as [n content | n es r IH] using DirEntry_tree_ind;
    intros path st.
  - rewrite walkDir_eq. unfold bind.
    destruct (walkFn_file_accounts env path n content st) as (st' & Hfn & Ht).
    rewrite Hfn. by exists st'.
  - rewrite reached_eq. destruct (pruned n) eqn:Hp.
    + exists st. split; [by apply walkDir_pruned | apply tally_nil].
    + rewrite walkDir_eq. unfold bind.
      rewrite walkFn_kept_dir by done.
      unfold liftW, emit, ret. simpl.
      set (st1 := {| stats := stats st; world := _ |}).
      assert (H1 : tally env st st1 []).
      { subst st1. unfold tally. simpl.
        split; trace_simpl; try done. items 0%nat 0%nat. }
      destruct r as [e |]; [by exists st1 |].
      assert (Hloop : forall st2,
                 exists st',
                   eachEntry (walkDir (walkFn env)) path es st2
                   = (OtherError <$> snd (reachedEach reached path es), st') /\
                   tally env st2 st' (fst (reachedEach reached path es))).
      { clear H1 st1. induction IH as [| d1 ds Hd1 _ IHds]; intros st2.
        - exists st2. split; [done | apply tally_nil].
        - rewrite eachEntry_cons, reachedEach_cons. unfold bind.
          destruct (Hd1 (Filepath.Join path (Name d1)) st2)
            as (st3 & Hw & Ht1).
          rewrite Hw.
          destruct (reached (Filepath.Join path (Name d1)) d1)
            as [files1 [e |]]; simpl in *.
          + by exists st3.
          + destruct (IHds st3) as (st4 & Hrest & Ht2).
            rewrite Hrest.
            destruct (reachedEach reached path ds) as [files2 stop2].
            exists st4. split; [done |]. by eapply tally_app. }
      destruct (Hloop st1) as (st' & Hw & Ht).
      exists st'. split; [done |].
      exact (tally_app _ _ _ _ _ _ H1 Ht).
Qed.

(** When every listed directory can be read, the walk reaches every
    visible file. *)
Lemma reached_clean d :
  forall path, clean d = true -> reached path d = (visible path d, None).
Proof.
  induction d as [n content | n es r IH] using DirEntry_tree_ind;
    intros path Hclean; [done |].
  rewrite reached_eq. cbn [visible]. destruct (pruned n) eqn:Hp; [done |].
  cbn [clean] in Hclean. rewrite Hp in Hclean. simpl in Hclean.
  apply andb_true_iff in Hclean as [Hr Hes].
  apply bool_decide_eq_true in Hr. subst r.
  induction IH as [| d1 ds Hd1 _ IHds]; [done |].
  simpl in Hes. apply andb_true_iff in Hes as [Hc1 Hcs].
  rewrite reachedEach_cons, (Hd1 _ Hc1), (IHds Hcs). reflexivity.
Qed.

(** C3: whatever reads, embedding calls and upserts fail, the run ends
    with the report; every Go file the walk reaches was handed to
    [os.ReadFile]; every function of every readable file was handed to the
    embedding client; and each of these items was counted once, as indexed
    when the store accepted it and as failed otherwise (an unreadable file
    counting as one failure).  The files reached are read off the tree:
    they are all the visible files when every listed directory can be
    read. *)
Theorem index_failures_do_not_stop_the_run env request rootPath d w :
  RequireString request "path" = Ok rootPath ->
  os_Lstat env rootPath = Ok d ->
  let files := fst (reached rootPath d) in
  (clean d = true -> files = visible rootPath d) /\
  exists s w',
    handleIndexProject env request w
    = ((NewToolResultText (report s), None), w') /\
    reads_of (trace w') = reads_of (trace w) ++ flat_map file_reads files /\
    inputs_of (trace w')
    = inputs_of (trace w) ++ flat_map (file_inputs env) files /\
    Files s = Nat.iter (sum_list_with file_scanned files) GoInt.incr 0 /\
    Skipped s = Nat.iter (sum_list_with file_skipped files) GoInt.incr 0 /\
    exists indexed failed : nat,
      (indexed + failed = sum_list_with (file_items env) files)%nat /\
      length (upserted_of (trace w'))
      = (length (upserted_of (trace w)) + indexed)%nat /\
      Chunks s = Nat.iter indexed GoInt.incr 0 /\
      Failed s = Nat.iter failed GoInt.incr 0.
Proof.
  intros Hreq Hstat files.
  split.
  { intros Hclean. subst files. by rewrite reached_clean. }
  destruct (walkDir_accounts env d rootPath {| stats := no_stats; world := w |})
    as (st' & Hwalk & [Hr Hi Hf Hs Hitems]).
  exists (stats st'), (world st').
  split; [| by repeat split].
  unfold handleIndexProject. rewrite Hreq.
  unfold bind, indexRun, WalkDir, bind. rewrite Hstat, Hwalk.
  by destruct (reached rootPath d) as [fs [e |]].
Qed.

Lemma index_failures_do_not_stop_the_run_witness :
  exists s w',
    handleIndexProject Sample.env (Sample.index_request "/proj") Sample.world0
    = ((NewToolResultText (report s), None), w') /\
    reads_of (trace w')
    = ["/proj/.hidden.go"; "/proj/a.go"; "/proj/bad.go"; "/proj/pkg/b.go"] /\
    length (inputs_of (trace w')) = 5%nat /\
    Files s = 3 /\
    Skipped s = 1.
Proof.
  assert (Hreq : RequireString (Sample.index_request "/proj") "path" = Ok "/proj")
    by (vm_compute; reflexivity).
  assert (Hstat : os_Lstat Sample.env "/proj" = Ok Sample.tree)
    by (vm_compute; reflexivity).
  destruct (index_failures_do_not_stop_the_run Sample.env
              (Sample.index_request "/proj") "/proj" Sample.tree
              Sample.world0 Hreq Hstat)
    as (_ & s & w' & Hrun & Hreads & Hinputs & Hfiles & Hskipped & _).
  exists s, w'.
  split; [exact Hrun |].
  split; [rewrite Hreads; vm_compute; reflexivity |].
  split; [rewrite Hinputs; vm_compute; reflexivity |].
  split; [rewrite Hfiles; vm_compute; reflexivity |].
  rewrite Hskipped; vm_compute; reflexivity.
Defined.

(** ** Hidden files *)

Lemma Ext_go (s : string) : Filepath.Ext (s +:+ ".go") = ".go".
Proof.
  unfold Filepath.Ext. rewrite list_ascii_of_append. simpl.
  rewrite rev_app_distr. reflexivity.
Qed.

Lemma Join_assoc (dir stem ext : string) :
  Filepath.Join dir (stem +:+ ext) = (dir +:+ "/" +:+ stem) +:+ ext.
Proof. unfold Filepath.Join. by rewrite !append_assoc. Qed.

(** What the walk function does with a readable Go file. *)
Lemma walkFn_go_file env path n content st :
  Filepath.Ext path = ".go" ->
  walkFn env path (Visit (File n (Ok content))) st
  = (None,
     snd (indexMatches env path content (ts_matches env content)
            {| stats := incFiles (stats st);
               world := {| trace := trace (world st)
                                    ++ [EvReadFile path true; EvParse content];
                           store := store (world st) |} |})).
Proof.
  intros Hext. unfold walkFn. simpl. rewrite Hext. simpl. run.
  rewrite <- app_assoc. simpl.
  by destruct (indexMatches env path content (ts_matches env content) _)
    as [[] st2].
Qed.

(** C10: a file whose name starts with "." and ends in ".go", reached by
    the walk in a directory it lists, is read, parsed and indexed: the
    walk goes on with a nil error, [Files] is incremented, the file is
    handed to [os.ReadFile] and to the parser, every function found in it
    is handed to the embedding client and counted as indexed or failed;
    and the outcome is the one for a file of any other name with the same
    path and content. *)
Theorem hidden_go_file_is_indexed env dir name stem content st :
  HasPrefix name "." = true ->
  name = stem +:+ ".go" ->
  let path := Filepath.Join dir name in
  let st' :=
    snd (indexMatches env path content (ts_matches env content)
           {| stats := incFiles (stats st);
              world := {| trace := trace (world st)
                                   ++ [EvReadFile path true; EvParse content];
                          store := store (world st) |} |}) in
  walkDir (walkFn env) path (File name (Ok content)) st = (None, st') /\
  accounts st st' [path] (chunk_inputs env content) 1 0
           (length (ts_matches env content)) /\
  forall other,
    walkDir (walkFn env) path (File other (Ok content)) st = (None, st').
Proof.
  intros Hhidden Hname path st'.
  assert (Hext : Filepath.Ext path = ".go").
  { subst path name. rewrite Join_assoc. apply Ext_go. }
  assert (Hwalk : forall other,
             walkDir (walkFn env) path (File other (Ok content)) st = (None, st')).
  { intros other. rewrite walkDir_eq. unfold bind.
    by rewrite walkFn_go_file. }
  split; [apply Hwalk |]. split; [| exact Hwalk].
  destruct (walkFn_file_accounts env path name (Ok content) st)
    as (st2 & Hfn & Ht).
  rewrite walkFn_go_file in Hfn by done. injection Hfn as <-.
  unfold tally, file_reads, file_inputs, file_scanned, file_skipped,
    file_items, is_go in Ht. simpl in Ht.
  rewrite Hext in Ht. simpl in Ht.
  by rewrite app_nil_r, Nat.add_0_r in Ht.
Qed.

Lemma hidden_go_file_is_indexed_witness :
  let '(err, st') := walkDir (walkFn Sample.env) "/proj/.hidden.go"
                             (File ".hidden.go" (Ok Sample.foobar_go))
                             Sample.state0 in
  err = None /\
  reads_of (trace (world st')) = ["/proj/.hidden.go"] /\
  inputs_of (trace (world st')) = ["func Foo() {}"; "func (t T) Bar() {}"] /\
  Files (stats st') = 1.
Proof.
  destruct (hidden_go_file_is_indexed Sample.env "/proj" ".hidden.go" ".hidden"
              Sample.foobar_go Sample.state0)
    as (Hwalk & [Hr Hi Hf _ _] & _).
  - vm_compute. reflexivity.
  - vm_compute. reflexivity.
  - change (Filepath.Join "/proj" ".hidden.go") with "/proj/.hidden.go" in *.
    rewrite Hwalk. split; [reflexivity |].
    split; [rewrite Hr; reflexivity |].
    split; [rewrite Hi; vm_compute; reflexivity |].
    rewrite Hf. reflexivity.
Defined.

(* ===================================================================== *)
(** * Further properties of the handlers *)
(* ===================================================================== *)

(** ** Index steps *)

Lemma index_only_ret {A : Type} (a : A) : index_only (ret a).
Proof. intros st. apply rtc_refl. Qed.

Lemma index_only_bind {A B : Type} (m : M IndexState A) (k : A -> M IndexState B) :
  index_only m -> (forall a, index_only (k a)) -> index_only (bind m k).
Proof.
  intros Hm Hk st. unfold bind.
  specialize (Hm st). destruct (m st) as [a st1]. simpl in Hm.
  etrans; [exact Hm | apply Hk].
Qed.

Lemma index_only_count f : index_only (count f).
Proof. intros st. apply rtc_refl. Qed.

Lemma index_only_emit e :
  (forall q, e <> EvQuery q) -> (forall r, e <> EvUpsert r true) ->
  index_only (liftW (emit e)).
Proof. intros Hq Hu st. apply rtc_once. by constructor. Qed.

Lemma World_eta (w : World) : w = {| trace := trace w; store := store w |}.
Proof. by destruct w. Qed.

(** Logged calls that leave the store alone, one after the other. *)
Lemma index_steps_events (evs : list Event) :
  Forall (fun e => (forall q, e <> EvQuery q) /\
                   (forall r, e <> EvUpsert r true)) evs ->
  forall w,
    rtc index_step w {| trace := trace w ++ evs; store := store w |}.
Proof.
  induction 1 as [| e evs [Hq Hu] _ IH]; intros w.
  - rewrite app_nil_r, <- World_eta. apply rtc_refl.
  - eapply rtc_l; [by apply (step_event w e) |].
    specialize (IH {| trace := trace w ++ [e]; store := store w |}).
    simpl in IH. by rewrite <- app_assoc in IH.
Qed.

Lemma index_only_embedding env text :
  index_only (liftW (getOllamaEmbedding env text)).
Proof.
  intros st. unfold liftW.
  destruct (getOllamaEmbedding env text (world st)) as [r w1] eqn:Hemb.
  destruct (getOllamaEmbedding_trace _ _ _ _ _ Hemb)
    as (Hstore & posted & Htrace & Hposted).
  simpl. rewrite (World_eta w1), Htrace, Hstore.
  apply index_steps_events.
  destruct Hposted as [-> | [body ->]]; repeat constructor; done.
Qed.

Lemma index_only_indexMatch env path content m :
  index_only (indexMatch env path content m).
Proof.
  unfold indexMatch.
  apply index_only_bind; [apply index_only_embedding |].
  intros [embedding | e]; [| apply index_only_count].
  intros st. unfold bind, liftW, upserts_so_far. simpl.
  destruct (qdrant_Upsert env _ _) as [e |]; simpl.
  - rewrite <- app_assoc. simpl.
    apply (index_steps_events [EvUpsert _ false; EvLog _]).
    repeat constructor; done.
  - apply rtc_once. apply step_upsert.
Qed.

Lemma index_only_indexMatches env path content ms :
  index_only (indexMatches env path content ms).
Proof.
  induction ms as [| m ms IH]; simpl.
  - apply index_only_ret.
  - apply index_only_bind; [apply index_only_indexMatch | done].
Qed.

Lemma index_only_walkFn env path arg : index_only (walkFn env path arg).
Proof.
  destruct arg as [d | d e]; [| apply index_only_ret].
  unfold walkFn.
  destruct (IsDir d).
  { destruct (pruned (Name d)); apply index_only_ret. }
  destruct (negb _).
  { apply index_only_bind; [apply index_only_count |].
    intros _. apply index_only_ret. }
  destruct (ReadFile d) as [content | e];
    repeat first
      [ apply index_only_ret
      | apply index_only_count
      | apply index_only_indexMatches
      | by apply index_only_emit
      | apply index_only_bind; [| intros ?] ].
Qed.

(** A property of the walk function that sequencing keeps is a property of
    the whole walk. *)
Lemma walkDir_index_only fn d :
  (forall path arg, index_only (fn path arg)) ->
  forall path, index_only (walkDir fn path d).
Proof.
  intros Hfn.
  induction d as [n c | n es r IH] using DirEntry_tree_ind; intros path;
    rewrite walkDir_eq; (apply index_only_bind; [apply Hfn |]);
    intros [e |]; try (destruct (_ && _); apply index_only_ret).
  - apply index_only_ret.
  - apply index_only_bind; [by apply index_only_emit |]. intros _.
    apply index_only_bind.
    { destruct r; [apply Hfn | apply index_only_ret]. }
    intros [e |]; [destruct (is_SkipDir e); apply index_only_ret |].
    induction IH as [| d1 ds Hd1 _ IHds]; [apply index_only_ret |].
    rewrite eachEntry_cons.
    apply index_only_bind; [apply Hd1 |].
    intros [e |]; [destruct (is_SkipDir e); apply index_only_ret | done].
Qed.

Lemma indexRun_steps env rootPath w :
  rtc index_step w (snd (indexRun env rootPath w)).
Proof.
  unfold indexRun.
  assert (H : index_only (WalkDir (walkFn env) env rootPath)).
  { unfold WalkDir. apply index_only_bind.
    - destruct (os_Lstat env rootPath);
        [apply walkDir_index_only | ]; intros; apply index_only_walkFn.
    - intros [[| | msg] |]; apply index_only_ret. }
  specialize (H {| stats := no_stats; world := w |}).
  by destruct (WalkDir _ _ _ _) as [err st].
Qed.

Lemma handleIndexProject_steps env request w :
  rtc index_step w (snd (handleIndexProject env request w)).
Proof.
  unfold handleIndexProject.
  destruct (RequireString request "path") as [rootPath | e];
    [| apply rtc_refl].
  unfold bind. pose proof (indexRun_steps env rootPath w) as H.
  by destruct (indexRun env rootPath w) as [r w1].
Qed.

(** ** What index steps keep *)


Lemma queries_of_app (a b : list Event) :
  queries_of (a ++ b) = queries_of a ++ queries_of b.
Proof. unfold queries_of. apply omap_app. Qed.

Lemma queries_of_quiet (e : Event) :
  (forall q, e <> EvQuery q) -> queries_of [e] = [].
Proof. intros H. destruct e as [| | | | | | q |]; try done. by destruct (H q). Qed.

Lemma keyed_indexPoint path f embedding :
  keyed_by_payload (indexPoint path f embedding).
Proof. reflexivity. Qed.

(** Index steps send no query, only lengthen the trace, never delete a
    point, and replace a point only by a chunk's point under its id. *)
Lemma index_steps_keep w w' :
  rtc index_step w w' ->
  queries_of (trace w') = queries_of (trace w) /\
  trace w `prefix_of` trace w' /\
  forall id p,
    store w !! id = Some p ->
    store w' !! id = Some p \/
    exists path f embedding,
      id = uniqueID path (funcName f) /\
      store w' !! id = Some (indexPoint path f embedding).
Proof.
  induction 1 as [w | w1 w2 w3 Hstep _ (IHq & IHt & IHs)].
  { split; [done |]. split; [done |]. intros id p Hp. by left. }
  assert (Hnow : queries_of (trace w2) = queries_of (trace w1) /\
                 trace w1 `prefix_of` trace w2 /\
                 forall id p,
                   store w1 !! id = Some p ->
                   store w2 !! id = Some p \/
                   exists path f embedding,
                     id = uniqueID path (funcName f) /\
                     store w2 !! id = Some (indexPoint path f embedding)).
  { destruct Hstep as [w e Hq Hu | w path f embedding]; simpl.
    - rewrite queries_of_app, queries_of_quiet, app_nil_r by done.
      split; [done |]. split; [by apply prefix_app_r |]. by left.
    - rewrite queries_of_app. simpl. rewrite app_nil_r.
      split; [done |]. split; [by apply prefix_app_r |].
      intros id p Hp.
      destruct (decide (uniqueID path (funcName f) = id)) as [<- | Hne].
      + right. exists path, f, embedding. by rewrite lookup_insert_eq.
      + left. by rewrite lookup_insert_ne. }
  destruct Hnow as (Hq & Ht & Hs).
  split; [congruence |]. split; [by etrans |].
  intros id p Hp.
  destruct (Hs id p Hp) as [H2 | (path & f & embedding & -> & H2)];
    destruct (IHs _ _ H2) as [H3 | (path' & f' & embedding' & Hid & H3)]; eauto 10.
Qed.

(** Index steps keep every point filed under its own id, that id being the
    identity of the path and name in the payload. *)
Lemma index_steps_keyed w w' :
  rtc index_step w w' -> store_keyed (store w) -> store_keyed (store w').
Proof.
  induction 1 as [w | w1 w2 w3 Hstep _ IH]; [done |].
  intros Hk. apply IH. clear IH.
  destruct Hstep as [w e Hq Hu | w path f embedding]; simpl; [done |].
  intros id p.
  destruct (decide (uniqueID path (funcName f) = id)) as [<- | Hne].
  - rewrite lookup_insert_eq. intros [= <-].
    split; [done | apply keyed_indexPoint].
  - rewrite lookup_insert_ne by done. apply Hk.
Qed.


(** ** Indexing twice *)

Lemma writes_app ps1 ps2 points :
  writes (ps1 ++ ps2) points = writes ps2 (writes ps1 points).
Proof. unfold writes. apply fold_left_app. Qed.

(** Writing points is laying them over the store. *)
Lemma writes_union ps points : writes ps points = writes ps ∅ ∪ points.
Proof.
  induction ps as [| p ps IH] using rev_ind.
  - simpl. by rewrite (left_id_L ∅ (∪)).
  - rewrite !writes_app. simpl. rewrite IH. by rewrite insert_union_l.
Qed.

(** Writing the same points a second time changes nothing. *)
Lemma writes_twice ps points :
  writes ps (writes ps points) = writes ps points.
Proof.
  rewrite (writes_union ps (writes ps points)), (writes_union ps points).
  by rewrite (assoc_L (∪)), (idemp_L (∪)).
Qed.

Lemma same_writes_ret {A : Type} (a : A) : same_writes (ret a).
Proof. intros st1 st2 Hs. repeat split; [done |]. by exists []. Qed.

Lemma same_writes_bind {A B : Type} (m : M IndexState A)
    (k : A -> M IndexState B) :
  same_writes m -> (forall a, same_writes (k a)) -> same_writes (bind m k).
Proof.
  intros Hm Hk st1 st2 Hs. unfold bind.
  destruct (Hm st1 st2 Hs) as (Ha & Hs' & ps1 & H1 & H2).
  destruct (m st1) as [a st1'], (m st2) as [a2 st2']. simpl in *. subst a2.
  destruct (Hk a st1' st2' Hs') as (Hb & Hs'' & ps2 & H3 & H4).
  repeat split; [done | done |].
  exists (ps1 ++ ps2). rewrite !writes_app. by rewrite <- H1, <- H2.
Qed.

Lemma same_writes_count f : same_writes (count f).
Proof.
  intros st1 st2 Hs. simpl. repeat split; [by rewrite Hs |]. by exists [].
Qed.

Lemma same_writes_emit e : same_writes (liftW (emit e)).
Proof. intros st1 st2 Hs. repeat split; [done |]. by exists []. Qed.

(** A stateless embedding service gives the same answer in any world. *)
Lemma getOllamaEmbedding_stateless env text w w' :
  stateless env ->
  fst (getOllamaEmbedding env text w) = fst (getOllamaEmbedding env text w').
Proof.
  intros [Hpost _]. unfold getOllamaEmbedding. run.
  destruct (sonic_Marshal env _) as [jsonData | e]; [| done].
  unfold posts_so_far. simpl.
  rewrite (Hpost _ (length (posts_of (trace w' ++ [EvMarshal
             {| req_Model := embeddingModel env; req_Input := text |}])))).
  repeat case_match; done.
Qed.

Lemma same_writes_embedding env text :
  stateless env -> same_writes (liftW (getOllamaEmbedding env text)).
Proof.
  intros Hst st1 st2 Hs. unfold liftW.
  pose proof (getOllamaEmbedding_stateless env text (world st1) (world st2) Hst)
    as Hr.
  destruct (getOllamaEmbedding env text (world st1)) as [r1 w1] eqn:E1.
  destruct (getOllamaEmbedding env text (world st2)) as [r2 w2] eqn:E2.
  apply getOllamaEmbedding_trace in E1 as [Hs1 _].
  apply getOllamaEmbedding_trace in E2 as [Hs2 _].
  simpl in *. repeat split; [done | done |]. by exists [].
Qed.

Lemma same_writes_indexMatch env path content m :
  stateless env -> same_writes (indexMatch env path content m).
Proof.
  intros Hst. unfold indexMatch.
  apply same_writes_bind; [by apply same_writes_embedding |].
  intros [embedding | e]; [| apply same_writes_count].
  intros st1 st2 Hs. unfold bind, liftW, upserts_so_far. simpl.
  destruct Hst as [_ Hup].
  rewrite (Hup _ (length (upserts_of (trace (world st2))))).
  destruct (qdrant_Upsert env _ _) as [e |]; simpl;
    (repeat split; [by rewrite Hs |]).
  - by exists [].
  - by exists [indexPoint path (extractDetails content m) embedding].
Qed.

Lemma same_writes_indexMatches env path content ms :
  stateless env -> same_writes (indexMatches env path content ms).
Proof.
  intros Hst. induction ms as [| m ms IH]; simpl.
  - apply same_writes_ret.
  - apply same_writes_bind; [by apply same_writes_indexMatch | done].
Qed.

Lemma same_writes_walkFn env path arg :
  stateless env -> same_writes (walkFn env path arg).
Proof.
  intros Hst. destruct arg as [d | d e]; [| apply same_writes_ret].
  unfold walkFn.
  destruct (IsDir d).
  { destruct (pruned (Name d)); apply same_writes_ret. }
  destruct (negb _).
  { apply same_writes_bind; [apply same_writes_count |].
    intros _. apply same_writes_ret. }
  destruct (ReadFile d) as [content | e];
    repeat first
      [ apply same_writes_ret
      | apply same_writes_count
      | by apply same_writes_indexMatches
      | apply same_writes_emit
      | apply same_writes_bind; [| intros ?] ].
Qed.

Lemma walkDir_same_writes fn d :
  (forall path arg, same_writes (fn path arg)) ->
  forall path, same_writes (walkDir fn path d).
Proof.
  intros Hfn.
  induction d as [n c | n es r IH] using DirEntry_tree_ind; intros path;
    rewrite walkDir_eq; (apply same_writes_bind; [apply Hfn |]);
    intros [e |]; try (destruct (_ && _); apply same_writes_ret).
  - apply same_writes_ret.
  - apply same_writes_bind; [apply same_writes_emit |]. intros _.
    apply same_writes_bind.
    { destruct r; [apply Hfn | apply same_writes_ret]. }
    intros [e |]; [destruct (is_SkipDir e); apply same_writes_ret |].
    induction IH as [| d1 ds Hd1 _ IHds]; [apply same_writes_ret |].
    rewrite eachEntry_cons.
    apply same_writes_bind; [apply Hd1 |].
    intros [e |]; [destruct (is_SkipDir e); apply same_writes_ret | done].
Qed.

Lemma WalkDir_same_writes env rootPath :
  stateless env -> same_writes (WalkDir (walkFn env) env rootPath).
Proof.
  intros Hst. unfold WalkDir. apply same_writes_bind.
  - destruct (os_Lstat env rootPath);
      [apply walkDir_same_writes |]; intros; by apply same_writes_walkFn.
  - intros [[| | msg] |]; apply same_writes_ret.
Qed.

(** ** One chunk *)

Lemma incr_ne (x : Z) : GoInt.incr x <> x.
Proof.
  unfold GoInt.incr, GoInt.wrap_int. intros H.
  pose proof (Z.mod_pos_bound (x + 1 + 2 ^ 63) (2 ^ 64) eq_refl) as Hb.
  destruct (Z_lt_le_dec (x + 1 + 2 ^ 63) (2 ^ 64)) as [Hlt | Hge].
  - rewrite Z.mod_small in H by lia. lia.
  - assert (x + 2 ^ 63 = 2 ^ 64 - 1) as Hx by lia.
    replace (x + 1 + 2 ^ 63) with (1 * 2 ^ 64) in H by lia.
    rewrite Z.mod_mul in H by lia. lia.
Qed.

(** One turn of the match loop, step by step. *)
Lemma indexMatch_eq env path content m st :
  indexMatch env path content m st =
  let f := extractDetails content m in
  let '(r, w1) := getOllamaEmbedding env (funcBody f) (world st) in
  match r with
  | Err _ => (tt, {| stats := incFailed (stats st); world := w1 |})
  | Ok embedding =>
      match qdrant_Upsert env (length (upserts_of (trace w1)))
                          (upsertOf path f embedding) with
      | Some e =>
          (tt, {| stats := incFailed (stats st);
                  world := {| trace := trace w1
                                       ++ [EvUpsert (upsertOf path f embedding) false;
                                           EvLog ("Qdrant upsert error: " +:+ e)];
                              store := store w1 |} |})
      | None =>
          (tt, {| stats := incChunks (stats st);
                  world := {| trace := trace w1
                                       ++ [EvUpsert (upsertOf path f embedding) true];
                              store := <[uniqueID path (funcName f)
                                         := indexPoint path f embedding]> (store w1) |} |})
      end
  end.
Proof.
  unfold indexMatch, upsertOf. unfold bind at 1. unfold liftW at 1. simpl.
  destruct (getOllamaEmbedding env _ (world st)) as [[embedding | e] w1];
    [| done].
  run. unfold upserts_so_far. simpl.
  destruct (qdrant_Upsert env _ _) as [e |]; simpl; [| done].
  by rewrite <- app_assoc.
Qed.

(** What one turn of the match loop does to counters and store: the chunk
    is counted as indexed and its point is in the store under the chunk's
    id, or it is counted as failed and the store is as before. *)
Lemma indexMatch_outcome env path content m st :
  let f := extractDetails content m in
  let st' := snd (indexMatch env path content m st) in
  (exists embedding,
     stats st' = incChunks (stats st) /\
     store (world st')
     = <[uniqueID path (funcName f) := indexPoint path f embedding]>
         (store (world st))) \/
  (stats st' = incFailed (stats st) /\
   store (world st') = store (world st)).
Proof.
  intros f st'. subst st' f. rewrite indexMatch_eq. simpl.
  destruct (getOllamaEmbedding env _ (world st)) as [r w1] eqn:Hemb.
  apply getOllamaEmbedding_trace in Hemb as [Hstore _].
  destruct r as [embedding | e]; [| by right].
  destruct (qdrant_Upsert env _ _) as [e |]; simpl.
  - by right.
  - left. exists embedding. by rewrite Hstore.
Qed.

Lemma incr_incr_ne (x : Z) : GoInt.incr (GoInt.incr x) <> x.
Proof.
  unfold GoInt.incr, GoInt.wrap_int. intros H.
  replace ((x + 1 + 2 ^ 63) mod 2 ^ 64 - 2 ^ 63 + 1 + 2 ^ 63)
    with ((x + 1 + 2 ^ 63) mod 2 ^ 64 + 1) in H by lia.
  rewrite Z.add_mod_idemp_l in H by lia.
  pose proof (Z.mod_pos_bound (x + 1 + 2 ^ 63 + 1) (2 ^ 64) eq_refl) as Hb.
  assert (Hx : 0 <= x + 2 ^ 63 < 2 ^ 64) by lia.
  destruct (Z_lt_le_dec (x + 1 + 2 ^ 63 + 1) (2 ^ 64)) as [Hlt | Hge].
  - rewrite Z.mod_small in H by lia. lia.
  - replace (x + 1 + 2 ^ 63 + 1) with ((x + 2 ^ 63 + 2 - 2 ^ 64) + 1 * 2 ^ 64)
      in H by lia.
    rewrite Z.mod_add, Z.mod_small in H by lia. lia.
Qed.

(** X5: when a file holds two functions of the same name (two methods
    [String] on different receivers, say) and neither fails, both are
    counted as indexed but they share one id: the store holds the point of
    the second only, where the first one's was. *)
Theorem same_name_functions_share_one_point env path content m1 m2 st :
  funcName (extractDetails content m1) = funcName (extractDetails content m2) ->
  let st' := snd (indexMatches env path content [m1; m2] st) in
  Failed (stats st') = Failed (stats st) ->
  Chunks (stats st') = GoInt.incr (GoInt.incr (Chunks (stats st))) /\
  exists embedding,
    store (world st')
    = <[uniqueID path (funcName (extractDetails content m2))
        := indexPoint path (extractDetails content m2) embedding]>
        (store (world st)).
Proof.
  intros Hname st'. subst st'. simpl indexMatches. unfold bind, ret.
  pose proof (indexMatch_outcome env path content m1 st) as H1.
  destruct (indexMatch env path content m1 st) as [[] st1]. simpl in H1.
  pose proof (indexMatch_outcome env path content m2 st1) as H2.
  destruct (indexMatch env path content m2 st1) as [[] st2]. simpl in *.
  intros Hfailed.
  destruct H1 as [(e1 & Hs1 & Hw1) | [Hs1 Hw1]],
           H2 as [(e2 & Hs2 & Hw2) | [Hs2 Hw2]];
    rewrite Hs2, Hs1 in Hfailed; simpl in Hfailed.
  - split; [by rewrite Hs2, Hs1 |].
    exists e2. by rewrite Hw2, Hw1, Hname, insert_insert_eq.
  - by destruct (incr_ne (Failed (stats st))).
  - by destruct (incr_ne (Failed (stats st))).
  - by destruct (incr_incr_ne (Failed (stats st))).
Qed.

Lemma same_name_functions_share_one_point_witness :
  Chunks (stats (snd (indexMatches Cases.env "/proj/s.go" Cases.strings_go
                        [Cases.match_A; Cases.match_B] Sample.state0)))
  = GoInt.incr (GoInt.incr (Chunks (stats Sample.state0))) /\
  exists embedding,
    store (world (snd (indexMatches Cases.env "/proj/s.go" Cases.strings_go
                         [Cases.match_A; Cases.match_B] Sample.state0)))
    = <[uniqueID "/proj/s.go"
                 (funcName (extractDetails Cases.strings_go Cases.match_B))
        := indexPoint "/proj/s.go"
                      (extractDetails Cases.strings_go Cases.match_B) embedding]>
        (store (world Sample.state0)).
Proof.
  refine (same_name_functions_share_one_point Cases.env "/proj/s.go"
            Cases.strings_go Cases.match_A Cases.match_B Sample.state0 _ _).
  - vm_compute. reflexivity.
  - vm_compute. reflexivity.
Defined.

(** ** The whole run *)

(** X1: with services that answer by what they are asked, indexing the
    same tree a second time returns the same report and leaves the store
    exactly as the first run left it: points are overwritten, none is
    added. *)
Theorem reindexing_changes_nothing env request w :
  stateless env ->
  let '(r1, w1) := handleIndexProject env request w in
  let '(r2, w2) := handleIndexProject env request w1 in
  r2 = r1 /\ store w2 = store w1.
Proof.
  intros Hst. unfold handleIndexProject.
  destruct (RequireString request "path") as [rootPath | e]; [| done].
  unfold bind, indexRun.
  destruct (WalkDir (walkFn env) env rootPath {| stats := no_stats; world := w |})
    as [err1 st1] eqn:E1. simpl.
  destruct (WalkDir (walkFn env) env rootPath
              {| stats := no_stats; world := world st1 |})
    as [err2 st2] eqn:E2. simpl.
  destruct (WalkDir_same_writes env rootPath Hst
              {| stats := no_stats; world := w |}
              {| stats := no_stats; world := world st1 |} eq_refl)
    as (_ & Hstats & ps & H1 & H2).
  rewrite E1, E2 in *. simpl in *.
  split; [by rewrite Hstats |].
  rewrite H2, H1. apply writes_twice.
Qed.

Lemma reindexing_changes_nothing_witness :
  let '(r1, w1) := handleIndexProject Sample.small_env
                     (Sample.index_request "/proj") Sample.world0 in
  let '(r2, w2) := handleIndexProject Sample.small_env
                     (Sample.index_request "/proj") w1 in
  r2 = r1 /\ store w2 = store w1.
Proof.
  apply (reindexing_changes_nothing Sample.small_env
           (Sample.index_request "/proj") Sample.world0).
  split; intros; reflexivity.
Defined.

(** X2: indexing sends no query to the store, only adds to the log of
    calls, and never deletes a point: a point that was in the store is
    still there, or a chunk's point has taken its place under the same
    id.  Points of functions that were renamed or removed stay. *)
Theorem indexing_never_deletes_points env request w :
  let w' := snd (handleIndexProject env request w) in
  queries_of (trace w') = queries_of (trace w) /\
  trace w `prefix_of` trace w' /\
  forall id p,
    store w !! id = Some p ->
    store w' !! id = Some p \/
    exists path f embedding,
      id = uniqueID path (funcName f) /\
      store w' !! id = Some (indexPoint path f embedding).
Proof. apply index_steps_keep, handleIndexProject_steps. Qed.

(** X3: if every stored point is filed under its own id and that id is the
    identity of the file path and function name in its payload, the same
    holds after indexing. *)
Theorem indexing_keeps_points_keyed env request w :
  store_keyed (store w) ->
  store_keyed (store (snd (handleIndexProject env request w))).
Proof. apply index_steps_keyed, handleIndexProject_steps. Qed.

Lemma indexing_keeps_points_keyed_witness :
  store_keyed (store (snd (handleIndexProject Sample.env
                             (Sample.index_request "/proj") Sample.world0))).
Proof.
  apply (indexing_keeps_points_keyed Sample.env
           (Sample.index_request "/proj") Sample.world0).
  intros id p H. simpl in H. by rewrite lookup_empty in H.
Defined.





(** ** Failures that are and are not isolated *)

(** X6: a Go file that cannot be read is counted as failed, not as scanned
    and not as skipped; it is neither parsed nor sent for embedding, the
    store is left alone, and the walk goes on. *)
Theorem unreadable_go_file_counts_as_failed env path n msg st :
  Filepath.Ext path = ".go" ->
  walkDir (walkFn env) path (File n (Err msg)) st
  = (None,
     {| stats := {| Files := Files (stats st);
                    Chunks := Chunks (stats st);
                    Skipped := Skipped (stats st);
                    Failed := GoInt.incr (Failed (stats st)) |};
        world := {| trace := trace (world st) ++ [EvReadFile path false];
                    store := store (world st) |} |}).
Proof.
  intros Hext. rewrite walkDir_eq. unfold bind, walkFn. simpl.
  by rewrite Hext.
Qed.

Lemma unreadable_go_file_counts_as_failed_witness :
  walkDir (walkFn Sample.env) "/proj/bad.go"
          (File "bad.go" (Err "permission denied")) Sample.state0
  = (None,
     {| stats := {| Files := 0; Chunks := 0; Skipped := 0; Failed := 1 |};
        world := {| trace := [EvReadFile "/proj/bad.go" false];
                    store := ∅ |} |}).
Proof.
  refine (unreadable_go_file_counts_as_failed Sample.env "/proj/bad.go"
            "bad.go" "permission denied" Sample.state0 _).
  vm_compute. reflexivity.
Defined.

(** X7: a directory that is not pruned and cannot be listed ends the walk:
    the error of the listing is passed up, the entries that were read
    before the error and the entries that follow the directory in its
    parent are not visited, and nothing but the listing is logged. *)
Theorem unlistable_directory_stops_the_walk env path n entries msg rest st :
  pruned n = false ->
  let dir := Filepath.Join path n in
  let st' := {| stats := stats st;
                world := {| trace := trace (world st) ++ [EvReadDir dir];
                            store := store (world st) |} |} in
  walkDir (walkFn env) dir (Dir n entries (Some msg)) st
  = (Some (OtherError msg), st') /\
  eachEntry (walkDir (walkFn env)) path (Dir n entries (Some msg) :: rest) st
  = (Some (OtherError msg), st').
Proof.
  intros Hp dir st'.
  assert (Hdir : walkDir (walkFn env) dir (Dir n entries (Some msg)) st
                 = (Some (OtherError msg), st')).
  { rewrite walkDir_eq. unfold bind.
    rewrite walkFn_kept_dir by done. reflexivity. }
  split; [exact Hdir |].
  rewrite eachEntry_cons. unfold bind. simpl Name. fold dir.
  by rewrite Hdir.
Qed.

Lemma unlistable_directory_stops_the_walk_witness :
  eachEntry (walkDir (walkFn Sample.env)) "/proj"
            [Dir "locked" [File "a.go" (Ok Sample.foo_go)] (Some "permission denied");
             File "b.go" (Ok Sample.foo_go)]
            Sample.state0
  = (Some (OtherError "permission denied"),
     {| stats := no_stats;
        world := {| trace := [EvReadDir "/proj/locked"]; store := ∅ |} |}).
Proof.
  refine (proj2 (unlistable_directory_stops_the_walk Sample.env "/proj"
                   "locked" [File "a.go" (Ok Sample.foo_go)]
                   "permission denied" [File "b.go" (Ok Sample.foo_go)]
                   Sample.state0 _)).
  vm_compute. reflexivity.
Defined.

(** ** The capture loop *)

Lemma last_capture_snoc name cs c :
  last_capture name (cs ++ [c])
  = if decide (CaptureNameForId (Index c) = name) then Some (CapNode c)
    else last_capture name cs.
Proof.
  unfold last_capture. rewrite filter_app, filter_cons, filter_nil.
  case_decide.
  - by rewrite last_snoc.
  - by rewrite app_nil_r.
Qed.

(** X8: the details taken from a match are those of its last "func"
    capture and of its last "name" capture, wherever they stand in the
    match; a match without a "name" capture gives the empty name, one
    without a "func" capture the empty body and line 0.  Lines are rows
    plus one in uint32: for rows below the last uint32 value they are at
    least 1 and keep the order of the rows. *)
Theorem extractDetails_last_captures content m :
  let func := last_capture "func" (Captures m) in
  let name := last_capture "name" (Captures m) in
  extractDetails content m
  = {| funcName := from_option (fun n => Content n content) "" name;
       funcBody := from_option (fun n => Content n content) "" func;
       startLine :=
         from_option (fun n => GoInt.wrap_uint32 (StartRow n + 1)) 0 func;
       endLine :=
         from_option (fun n => GoInt.wrap_uint32 (EndRow n + 1)) 0 func |} /\
  forall n,
    func = Some n ->
    0 <= StartRow n <= EndRow n -> EndRow n < 2 ^ 32 - 1 ->
    startLine (extractDetails content m) = StartRow n + 1 /\
    endLine (extractDetails content m) = EndRow n + 1 /\
    1 <= startLine (extractDetails content m)
      <= endLine (extractDetails content m).
Proof.
  intros func name.
  assert (Heq : extractDetails content m
    = {| funcName := from_option (fun n => Content n content) "" name;
         funcBody := from_option (fun n => Content n content) "" func;
         startLine :=
           from_option (fun n => GoInt.wrap_uint32 (StartRow n + 1)) 0 func;
         endLine :=
           from_option (fun n => GoInt.wrap_uint32 (EndRow n + 1)) 0 func |}).
  { subst func name. unfold extractDetails.
    induction (Captures m) as [| c cs IH] using rev_ind; [done |].
    rewrite fold_left_app. simpl. rewrite IH, !last_capture_snoc.
    unfold captureStep. simpl.
    destruct (Index c) as [| [| k]]; reflexivity. }
  split; [exact Heq |].
  intros n Hn Hrows Hmax. rewrite Heq, Hn. simpl.
  unfold GoInt.wrap_uint32. rewrite !Z.mod_small by lia. lia.
Qed.

(** ** The report *)

Lemma pretty_N_go_digits (x : N) :
  forall s,
    Forall digit_or_minus (list_ascii_of_string s) ->
    Forall digit_or_minus (list_ascii_of_string (pretty_N_go x s)).
Proof.
  induction (N.lt_wf_0 x) as [x _ IH]. intros s Hs.
  destruct (decide (x = 0%N)) as [-> | Hx].
  - by rewrite pretty_N_go_0.
  - rewrite pretty_N_go_step by lia.
    apply IH.
    { apply N.div_lt; lia. }
    simpl. apply Forall_cons. split; [| exact Hs].
    unfold pretty_N_char, digit_or_minus.
    repeat case_match; simpl; auto 20.
Qed.

Lemma pretty_Z_digits (z : Z) :
  Forall digit_or_minus (list_ascii_of_string (pretty z)).
Proof.
  assert (H0 : Forall digit_or_minus (list_ascii_of_string "0")).
  { simpl. apply Forall_cons. split; [| constructor].
    unfold digit_or_minus. simpl. auto 20. }
  assert (HN : forall n : N,
             Forall digit_or_minus (list_ascii_of_string (pretty n))).
  { intros n. unfold pretty, pretty_N. case_decide; [exact H0 |].
    apply pretty_N_go_digits. constructor. }
  destruct z as [| p | p]; unfold pretty, pretty_Z.
  - exact H0.
  - apply HN.
  - rewrite append_String. simpl. apply Forall_cons. split; [| apply HN].
    unfold digit_or_minus. simpl. auto 20.
Qed.

(** Cutting at the first occurrence of a character. *)
Lemma cut_at_first (c : ascii) (a b x y : string) :
  ~ In c (list_ascii_of_string a) -> ~ In c (list_ascii_of_string b) ->
  a +:+ String c x = b +:+ String c y ->
  a = b /\ x = y.
Proof.
  revert b. induction a as [| c1 a IH]; intros [| c2 b] Ha Hb H;
    rewrite ?append_String in H; simpl in *.
  - by injection H.
  - injection H as -> _. tauto.
  - injection H as -> _. tauto.
  - injection H as -> H.
    destruct (IH b) as [-> ->]; [tauto | tauto | done | done].
Qed.

Lemma cut_number (c : ascii) (z z' : Z) (x y : string) :
  ~ digit_or_minus c ->
  Fmt.d z +:+ String c x = Fmt.d z' +:+ String c y ->
  z = z' /\ x = y.
Proof.
  intros Hc H. unfold Fmt.d in H.
  assert (Hno : forall n : Z, ~ In c (list_ascii_of_string (pretty n))).
  { intros n Hin. apply Hc.
    pose proof (pretty_Z_digits n) as Hd.
    rewrite Forall_forall in Hd. apply Hd. by apply list_elem_of_In. }
  apply cut_at_first in H as [Hz ->]; [| apply Hno | apply Hno].
  split; [| done]. by apply (inj pretty).
Qed.

(** Peeling equal literal text off both sides of an equation. *)
Ltac strip_literals H :=
  repeat first
    [ rewrite append_String in H
    | progress change (String.append EmptyString ?b) with b in H
    | injection H as H ].

(** A character that [%d] never prints. *)
Ltac not_printed :=
  unfold digit_or_minus; vm_compute; intros Hc;
  repeat (destruct Hc as [Hc | Hc]; [discriminate Hc |]); exact Hc.

Lemma report_inj (s s' : Stats) : report s = report s' -> s = s'.
Proof.
  unfold report, nl. intros H.
  strip_literals H.
  apply cut_number in H as [HF H]; [| not_printed].
  strip_literals H.
  apply cut_number in H as [HC H]; [| not_printed].
  strip_literals H.
  apply cut_number in H as [HFa H]; [| not_printed].
  strip_literals H.
  apply (inj pretty) in H.
  destruct s, s'. simpl in *. by subst.
Qed.

(** X9: the report text determines the four counters: runs that counted
    differently (files, functions, failures or skips) never return the same
    text, so the numbers can be read back from the report. *)
Theorem report_determines_counters (s s' : Stats) :
  s <> s' -> report s <> report s'.
Proof. intros Hne H. by apply Hne, report_inj. Qed.

Lemma report_determines_counters_witness :
  report {| Files := 1; Chunks := 12; Skipped := 0; Failed := 3 |}
  <> report {| Files := 11; Chunks := 2; Skipped := 0; Failed := 3 |}.
Proof.
  apply (report_determines_counters
           {| Files := 1; Chunks := 12; Skipped := 0; Failed := 3 |}
           {| Files := 11; Chunks := 2; Skipped := 0; Failed := 3 |}).
  discriminate.
Defined.

(** ** The search handler *)

Lemma getOllamaEmbedding_ok_posted env text w v w' :
  getOllamaEmbedding env text w = (Ok v, w') ->
  store w' = store w /\
  exists body,
    trace w' = trace w
               ++ [EvMarshal {| req_Model := embeddingModel env;
                                req_Input := text |};
                   EvPost (ollamaURL env) "application/json" body].
Proof.
  unfold getOllamaEmbedding. run. intros H.
  destruct (sonic_Marshal env _) as [jsonData | e]; [| by simplify_eq].
  assert (Hw : w' = {| trace := (trace w ++ [EvMarshal
      {| req_Model := embeddingModel env; req_Input := text |}])
      ++ [EvPost (ollamaURL env) "application/json" jsonData];
      store := store w |}).
  { unfold posts_so_far in H. simpl in H.
    repeat case_match; by simplify_eq. }
  subst w'. simpl. split; [done |].
  exists jsonData. by rewrite <- app_assoc.
Qed.

(** X10: a search only reads.  Whatever the request and whatever the
    services answer, the handler returns a nil error, leaves the store as it
    was, reads no file and upserts nothing; it asks for at most one
    embedding, and sends at most one query, which it does only after the
    embedding was obtained.  A request without a string "query" reaches no
    service at all. *)
Theorem search_only_reads env request w :
  let '(r, w') := codebase_search env request w in
  snd r = None /\
  store w' = store w /\
  exists evs,
    trace w' = trace w ++ evs /\
    reads_of evs = [] /\ upserts_of evs = [] /\
    (length (posts_of evs) <= 1)%nat /\
    (queries_of evs = [] \/
     exists v, queries_of evs = [searchRequest env request v] /\
               length (posts_of evs) = 1%nat) /\
    (is_ok (RequireString request "query") = false -> evs = []).
Proof.
  unfold codebase_search.
  destruct (RequireString request "query") as [query | e]; simpl.
  - unfold bind.
    destruct (getOllamaEmbedding env query w) as [[v | e] w1] eqn:Hemb.
    + apply getOllamaEmbedding_ok_posted in Hemb as (Hstore & body & Htr).
      unfold emit, read_store. simpl.
      assert (Hres : forall r : CallToolResult * option GoError,
        r.2 = None ->
        let w' := {| trace := trace w1 ++ [EvQuery (searchRequest env request v)];
                     store := store w1 |} in
        r.2 = None /\ store w' = store w /\
        exists evs,
          trace w' = trace w ++ evs /\
          reads_of evs = [] /\ upserts_of evs = [] /\
          (length (posts_of evs) <= 1)%nat /\
          (queries_of evs = [] \/
           exists v0, queries_of evs = [searchRequest env request v0] /\
                      length (posts_of evs) = 1%nat) /\
          (true = false -> evs = [])).
      { intros r Hr. simpl. split; [done |]. split; [done |].
        eexists. split; [by rewrite Htr, <- app_assoc |].
        simpl. repeat split; [lia | | done]. right. by exists v. }
      destruct (qdrant_Query env (store w1) (searchRequest env request v));
        by apply Hres.
    + apply getOllamaEmbedding_trace in Hemb as (Hstore & posted & Htr & Hp).
      simpl. split; [done |]. split; [done |].
      eexists. split; [exact Htr |].
      destruct Hp as [-> | [body ->]]; simpl; repeat split; auto.
      all: discriminate.
  - split; [done |]. split; [done |].
    exists []. rewrite app_nil_r. simpl. repeat split; auto.
Qed.

(** ** The chunk identity *)

Lemma hexchar_is_hex (v : Z) : is_hex (Uuid.hexchar v) = true.
Proof.
  unfold Uuid.hexchar.
  destruct (Z.to_nat v) as [| n]; [reflexivity |].
  do 15 (destruct n as [| n]; [reflexivity |]).
  reflexivity.
Qed.

Lemma version_nibble (x : Z) :
  Z.shiftr (Z.lor (Z.land x 0x0f)
                  (GoInt.wrap_uint8 (Z.shiftl (Z.land 5 0xf) 4))) 4 = 5.
Proof.
  change (GoInt.wrap_uint8 (Z.shiftl (Z.land 5 0xf) 4)) with 80.
  rewrite Z.shiftr_lor. change (Z.shiftr 80 4) with 5.
  change 0x0f with (Z.ones 4). rewrite Z.land_ones by lia.
  rewrite Z.shiftr_div_pow2 by lia.
  rewrite Z.div_small by (apply Z.mod_pos_bound; lia).
  reflexivity.
Qed.

Lemma variant_nibble (y : Z) :
  In (Z.shiftr (Z.lor (Z.land y 0x3f) 0x80) 4) [8; 9; 10; 11].
Proof.
  rewrite Z.shiftr_lor. change (Z.shiftr 0x80 4) with 8.
  change 0x3f with (Z.ones 6). rewrite Z.land_ones by lia.
  rewrite Z.shiftr_div_pow2 by lia.
  pose proof (Z.mod_pos_bound y (2 ^ 6) eq_refl) as Hy.
  assert (Hq : 0 <= y mod 2 ^ 6 / 2 ^ 4 < 4).
  { split; [apply Z.div_pos; lia |].
    apply Z.div_lt_upper_bound; lia. }
  assert (Hc : y mod 2 ^ 6 / 2 ^ 4 = 0 \/ y mod 2 ^ 6 / 2 ^ 4 = 1 \/
               y mod 2 ^ 6 / 2 ^ 4 = 2 \/ y mod 2 ^ 6 / 2 ^ 4 = 3) by lia.
  destruct Hc as [-> | [-> | [-> | ->]]]; simpl; auto.
Qed.

Lemma sum_length (msg : list Z) : length (Sha1.sum msg) = 20%nat.
Proof.
  unfold Sha1.sum.
  destruct (Sha1.blocks _ Sha1.init _) as [a b c d e]. reflexivity.
Qed.

Lemma uuid_text_of_bytes (u : list Z) :
  length u = 16%nat ->
  is_uuid_v5 (Uuid.String_ (Uuid.set_version 5 u)) = true.
Proof.
  intros Hlen.
  do 16 (destruct u as [| ? u]; [discriminate Hlen |]).
  destruct u; [| discriminate Hlen]. clear Hlen.
  unfold Uuid.set_version, Uuid.String_, Uuid.slice.
  cbn [nth firstn skipn Nat.sub list_insert insert Uuid.encodeHex].
  repeat first
    [ rewrite append_String
    | progress change (String.append EmptyString ?b) with b ].
  unfold is_uuid_v5.
  cbn [matches_pattern matches_class Ascii.eqb Bool.eqb andb].
  rewrite !hexchar_is_hex, version_nibble.
  pose proof (variant_nibble z7) as Hv. simpl in Hv.
  destruct Hv as [<- | [<- | [<- | [<- | []]]]]; reflexivity.
Qed.

(** X11: whatever the path and the function name, the chunk identity is
    the canonical text of a version-5 UUID: 36 characters, lower-case hex
    digits in groups of 8, 4, 4, 4 and 12 separated by dashes, with the
    version digit 5 and a variant digit among 8, 9, a, b. *)
Theorem uniqueID_is_uuid_v5 (path funcName : string) :
  is_uuid_v5 (uniqueID path funcName) = true.
Proof.
  unfold uniqueID, Uuid.NewSHA1. apply uuid_text_of_bytes.
  rewrite length_take, sum_length. reflexivity.
Qed.

(** ** Where requests go *)

Lemma sends_ret {A : Type} P (a : A) : sends P (ret a).
Proof. intros st. exists []. by rewrite app_nil_r. Qed.

Lemma sends_bind {A B : Type} P (m : M IndexState A) (k : A -> M IndexState B) :
  sends P m -> (forall a, sends P (k a)) -> sends P (bind m k).
Proof.
  intros Hm Hk st. unfold bind.
  destruct (Hm st) as (evs1 & H1 & HP1). destruct (m st) as [a st1].
  destruct (Hk a st1) as (evs2 & H2 & HP2). simpl in *.
  exists (evs1 ++ evs2). split; [by rewrite H2, H1, app_assoc |].
  by apply Forall_app.
Qed.

Lemma sends_count P f : sends P (count f).
Proof. intros st. exists []. by rewrite app_nil_r. Qed.

Lemma sends_emit (P : Event -> Prop) e : P e -> sends P (liftW (emit e)).
Proof. intros He st. exists [e]. split; [done |]. by constructor. Qed.

Lemma getOllamaEmbedding_addressed env text w :
  exists evs,
    trace (snd (getOllamaEmbedding env text w)) = trace w ++ evs /\
    Forall (addressed env) evs.
Proof.
  destruct (getOllamaEmbedding env text w) as [r w1] eqn:Hemb.
  destruct (getOllamaEmbedding_trace _ _ _ _ _ Hemb)
    as (_ & posted & Htrace & Hposted).
  eexists. split; [exact Htrace |].
  destruct Hposted as [-> | [body ->]]; repeat constructor; done.
Qed.

Lemma sends_embedding env text :
  sends (addressed env) (liftW (getOllamaEmbedding env text)).
Proof.
  intros st. unfold liftW.
  pose proof (getOllamaEmbedding_addressed env text (world st)) as H.
  by destruct (getOllamaEmbedding env text (world st)) as [r w1].
Qed.

Lemma sends_indexMatch env path content m :
  sends (addressed env) (indexMatch env path content m).
Proof.
  unfold indexMatch.
  apply sends_bind; [apply sends_embedding |].
  intros [embedding | e]; [| apply sends_count].
  intros st. unfold bind, liftW, upserts_so_far. simpl.
  destruct (qdrant_Upsert env _ _) as [e |]; simpl.
  - rewrite <- app_assoc. eexists. split; [done |].
    repeat constructor. by eexists _, _, _.
  - eexists. split; [done |]. repeat constructor. by eexists _, _, _.
Qed.

Lemma sends_indexMatches env path content ms :
  sends (addressed env) (indexMatches env path content ms).
Proof.
  induction ms as [| m ms IH]; simpl.
  - apply sends_ret.
  - apply sends_bind; [apply sends_indexMatch | done].
Qed.

Lemma sends_walkFn env path arg : sends (addressed env) (walkFn env path arg).
Proof.
  destruct arg as [d | d e]; [| apply sends_ret].
  unfold walkFn.
  destruct (IsDir d).
  { destruct (pruned (Name d)); apply sends_ret. }
  destruct (negb _).
  { apply sends_bind; [apply sends_count |].
    intros _. apply sends_ret. }
  destruct (ReadFile d) as [content | e];
    repeat first
      [ apply sends_ret
      | apply sends_count
      | apply sends_indexMatches
      | by apply sends_emit
      | apply sends_bind; [| intros ?] ].
Qed.

Lemma walkDir_sends (P : Event -> Prop) fn d :
  (forall path, P (EvReadDir path)) ->
  (forall path arg, sends P (fn path arg)) ->
  forall path, sends P (walkDir fn path d).
Proof.
  intros HP Hfn.
  induction d as [n c | n es r IH] using DirEntry_tree_ind; intros path;
    rewrite walkDir_eq; (apply sends_bind; [apply Hfn |]);
    intros [e |]; try (destruct (_ && _); apply sends_ret).
  - apply sends_ret.
  - apply sends_bind; [by apply sends_emit |]. intros _.
    apply sends_bind.
    { destruct r; [apply Hfn | apply sends_ret]. }
    intros [e |]; [destruct (is_SkipDir e); apply sends_ret |].
    induction IH as [| d1 ds Hd1 _ IHds]; [apply sends_ret |].
    rewrite eachEntry_cons.
    apply sends_bind; [apply Hd1 |].
    intros [e |]; [destruct (is_SkipDir e); apply sends_ret | done].
Qed.

Lemma handleIndexProject_addressed env request w :
  exists evs,
    trace (snd (handleIndexProject env request w)) = trace w ++ evs /\
    Forall (addressed env) evs.
Proof.
  unfold handleIndexProject.
  destruct (RequireString request "path") as [rootPath | e].
  - assert (H : sends (addressed env) (WalkDir (walkFn env) env rootPath)).
    { unfold WalkDir. apply sends_bind.
      - destruct (os_Lstat env rootPath);
          [apply walkDir_sends; [done |] | ]; intros; apply sends_walkFn.
      - intros [[| | msg] |]; apply sends_ret. }
    specialize (H {| stats := no_stats; world := w |}).
    unfold bind, indexRun.
    by destruct (WalkDir _ _ _ _) as [err st].
  - exists []. by rewrite app_nil_r.
Qed.

Lemma codebase_search_addressed env request w :
  exists evs,
    trace (snd (codebase_search env request w)) = trace w ++ evs /\
    Forall (addressed env) evs.
Proof.
  unfold codebase_search.
  destruct (RequireString request "query") as [query | e].
  - unfold bind.
    pose proof (getOllamaEmbedding_addressed env query w) as (evs & Htr & HP).
    destruct (getOllamaEmbedding env query w) as [[v | e] w1]; simpl in *.
    + exists (evs ++ [EvQuery (searchRequest env request v)]).
      split.
      * unfold emit, read_store. simpl.
        destruct (qdrant_Query env (store w1) (searchRequest env request v));
          simpl; by rewrite Htr, app_assoc.
      * apply Forall_app. split; [done |]. by repeat constructor.
    + by exists evs.
  - exists []. by rewrite app_nil_r.
Qed.

(** X12: every call either handler makes goes where the configuration
    says.  Embedding requests name the configured model and are posted to
    the configured URL as application/json; every upsert carries exactly
    one point, built from a file path, the details of one function and its
    embedding; every query asks the collection of the index for points with
    their payloads.  Indexing sends no query. *)
Theorem requests_are_addressed env request w :
  (exists evs,
     trace (snd (handleIndexProject env request w)) = trace w ++ evs /\
     Forall (addressed env) evs /\ queries_of evs = []) /\
  (exists evs,
     trace (snd (codebase_search env request w)) = trace w ++ evs /\
     Forall (addressed env) evs).
Proof.
  split; [| apply codebase_search_addressed].
  destruct (handleIndexProject_addressed env request w) as (evs & Htr & HP).
  exists evs. split; [done |]. split; [done |].
  pose proof (index_steps_keep _ _ (handleIndexProject_steps env request w))
    as [Hq _].
  rewrite Htr, queries_of_app in Hq.
  apply (f_equal length) in Hq. rewrite length_app in Hq.
  destruct (queries_of evs); [done | simpl in Hq; lia].
Qed.

(** ** Startup *)

Lemma ensureCollection_outcome svc p :
  let req := {| Startup.cc_CollectionName := CollectionName;
                Startup.cc_VectorsConfig :=
                  {| Startup.Size := Startup.VectorDimension;
                     Startup.Distance_ := Startup.Distance_Cosine |} |} in
  let after evs cs :=
    {| Startup.calls := Startup.calls p ++ evs;
       Startup.collections := cs;
       Startup.g_ollamaURL := Startup.g_ollamaURL p;
       Startup.g_embeddingModel := Startup.g_embeddingModel p |} in
  Startup.ensureCollection svc p
  = match Startup.qdrant_CollectionExists svc (Startup.collections p)
            CollectionName with
    | Err e =>
        (Startup.Fatalf "Error checking collection: %v" (Startup.ServiceError e),
         after [Startup.CallCollectionExists CollectionName]
               (Startup.collections p))
    | Ok true =>
        (Startup.Returned tt,
         after [Startup.CallCollectionExists CollectionName]
               (Startup.collections p))
    | Ok false =>
        match Startup.qdrant_CreateCollection svc (Startup.collections p) req with
        | Some e =>
            (Startup.Fatalf "Failed to create collection: %v"
                            (Startup.ServiceError e),
             after [Startup.CallCollectionExists CollectionName;
                    Startup.CallCreateCollection req false]
                   (Startup.collections p))
        | None =>
            (Startup.Returned tt,
             after [Startup.CallCollectionExists CollectionName;
                    Startup.CallCreateCollection req true;
                    Startup.CallLog ("Created new Qdrant collection: "
                                     +:+ CollectionName)]
                   (<[CollectionName := Startup.cc_VectorsConfig req]>
                      (Startup.collections p)))
        end
    end.
Proof.
  unfold Startup.ensureCollection, bind, ret, Startup.call,
    Startup.read_collections, Startup.add_collection. simpl.
  destruct (Startup.qdrant_CollectionExists svc _ _) as [[|] | e]; simpl;
    [done | | done].
  destruct (Startup.qdrant_CreateCollection svc _ _) as [e |]; simpl;
    by rewrite <- ?app_assoc.
Qed.

(** X13: against a store that answers the existence check with what it
    holds, [ensureCollection] never alters a collection that is there: when
    "codebase_index" exists, whatever its vector size and distance, only
    the check is made and the collections stay as they are.  It returns
    only when the collection exists afterwards, a collection it had to
    create has 4096-dimensional vectors compared by cosine, and when it
    ends the process instead the collections are as before. *)
Theorem ensureCollection_keeps_existing svc p :
  Startup.truthful svc ->
  let '(r, p') := Startup.ensureCollection svc p in
  (forall name v,
     Startup.collections p !! name = Some v ->
     Startup.collections p' !! name = Some v) /\
  (is_Some (Startup.collections p !! CollectionName) ->
   Startup.calls p'
   = Startup.calls p ++ [Startup.CallCollectionExists CollectionName]) /\
  (r = Startup.Returned tt ->
   is_Some (Startup.collections p' !! CollectionName) /\
   (Startup.collections p !! CollectionName = None ->
    Startup.collections p' !! CollectionName
    = Some {| Startup.Size := 4096;
              Startup.Distance_ := Startup.Distance_Cosine |})) /\
  (forall format err,
     r = Startup.Fatalf format err ->
     Startup.collections p' = Startup.collections p).
Proof.
  intros Htrue. rewrite ensureCollection_outcome. cbv zeta.
  destruct (Startup.qdrant_CollectionExists svc _ _) as [b | e] eqn:Hex.
  - apply Htrue in Hex.
    destruct b.
    + symmetry in Hex. apply bool_decide_eq_true in Hex.
      simpl. repeat split; try done.
      intros Hnone. rewrite Hnone in Hex. by destruct Hex.
    + symmetry in Hex. apply bool_decide_eq_false in Hex.
      apply eq_None_not_Some in Hex.
      destruct (Startup.qdrant_CreateCollection svc _ _) as [e |]; simpl.
      * repeat split; try done. intros Hs. rewrite Hex in Hs. by destruct Hs.
      * repeat split; try done.
        -- intros name v Hv. rewrite lookup_insert_ne; [done |].
           intros <-. by rewrite Hex in Hv.
        -- intros Hs. rewrite Hex in Hs. by destruct Hs.
        -- rewrite lookup_insert_eq. by eexists.
        -- intros _. by rewrite lookup_insert_eq.
  - simpl. repeat split; done.
Qed.

Lemma ensureCollection_keeps_existing_witness :
  let '(r, p') := Startup.ensureCollection (Startup.services None)
                    Startup.old_cluster in
  (forall name v,
     Startup.collections Startup.old_cluster !! name = Some v ->
     Startup.collections p' !! name = Some v) /\
  (is_Some (Startup.collections Startup.old_cluster !! CollectionName) ->
   Startup.calls p'
   = Startup.calls Startup.old_cluster
     ++ [Startup.CallCollectionExists CollectionName]) /\
  (r = Startup.Returned tt ->
   is_Some (Startup.collections p' !! CollectionName) /\
   (Startup.collections Startup.old_cluster !! CollectionName = None ->
    Startup.collections p' !! CollectionName
    = Some {| Startup.Size := 4096;
              Startup.Distance_ := Startup.Distance_Cosine |})) /\
  (forall format err,
     r = Startup.Fatalf format err ->
     Startup.collections p' = Startup.collections Startup.old_cluster).
Proof.
  apply (ensureCollection_keeps_existing (Startup.services None)
           Startup.old_cluster).
  intros cs name b H. simpl in H. by injection H as <-.
Defined.

(** Going through the calls of a list. *)
Ltac each_call H :=
  simpl in H;
  repeat (destruct H as [H | H]; [try discriminate H |]);
  try contradiction.

(** The three things to show of each way [main] can end. *)
Ltac startup_done :=
  split; [| split];
  [ let H := fresh "H" in intros ? H; each_call H
  | let H := fresh "H" in
    let Hr := fresh "Hr" in
    intros ? ? Hr;
    first [ discriminate Hr
          | split; [intros H | intros ? H]; each_call H ]
  | let H := fresh "H" in intros ? H; try discriminate H ].

(** X14: [main] serves only after the whole startup went through.  When
    [ServeStdio] is called, the two tools are registered, the collection
    "codebase_index" exists, and [main] returns after closing the client;
    when the process is ended by [log.Fatalf], nothing was served and the
    client is not closed.  A QDRANT_PORT that [strconv.Atoi] rejects, the
    empty text included (a variable that is set is not replaced by its
    default), ends the process before any call is made. *)
Theorem main_serves_after_startup svc p :
  Startup.truthful svc ->
  let '(r, p') := Startup.main svc p in
  exists evs,
    Startup.calls p' = Startup.calls p ++ evs /\
    (forall tools,
       In (Startup.CallServeStdio tools) evs ->
       tools = ["index_project"; "codebase_search"] /\
       is_Some (Startup.collections p' !! CollectionName) /\
       r = Startup.Returned tt /\
       last evs = Some Startup.CallClose) /\
    (forall format err,
       r = Startup.Fatalf format err ->
       ~ In Startup.CallClose evs /\
       forall tools, ~ In (Startup.CallServeStdio tools) evs) /\
    (forall err,
       Startup.Atoi (Startup.getEnvOrDefault svc "QDRANT_PORT" "6334")
       = inr err ->
       r = Startup.Fatalf "Invalid QDRANT_PORT: %v" err /\ evs = [] /\
       Startup.collections p' = Startup.collections p).
Proof.
  intros Htrue. unfold Startup.main.
  unfold bind at 1 2. simpl.
  destruct (Startup.Atoi _) as [qdrantPort | err0].
  2: { simpl. exists []. rewrite app_nil_r. split; [done |]. startup_done.
       injection H as <-. done. }
  unfold bind at 1. simpl.
  destruct (Startup.qdrant_NewClient svc _) as [e |].
  { simpl. eexists. split; [done |]. startup_done. }
  unfold bind at 1. rewrite ensureCollection_outcome. cbv zeta. simpl.
  destruct (Startup.qdrant_CollectionExists svc _ _) as [b | e] eqn:Hex.
  2: { simpl. rewrite <- app_assoc. eexists. split; [done |]. startup_done. }
  apply Htrue in Hex. simpl in Hex.
  destruct b.
  - symmetry in Hex. apply bool_decide_eq_true in Hex.
    unfold bind, ret, Startup.call.
    destruct (Startup.server_ServeStdio svc) as [e |]; simpl;
      rewrite <- !app_assoc; simpl;
      (eexists; split; [done |]); startup_done;
      injection H as <-; done.
  - symmetry in Hex. apply bool_decide_eq_false in Hex.
    destruct (Startup.qdrant_CreateCollection svc _ _) as [e |].
    + simpl. rewrite <- app_assoc. eexists. split; [done |]. startup_done.
    + unfold bind, ret, Startup.call.
      destruct (Startup.server_ServeStdio svc) as [e |]; simpl;
        rewrite <- !app_assoc; simpl;
        (eexists; split; [done |]); startup_done;
        injection H as <-; repeat split; try done;
        by rewrite lookup_insert_eq.
Qed.

Lemma main_serves_after_startup_witness :
  let '(r, p') := Startup.main (Startup.services (Some ""))
                    Startup.new_cluster in
  exists evs,
    Startup.calls p' = Startup.calls Startup.new_cluster ++ evs /\
    (forall tools,
       In (Startup.CallServeStdio tools) evs ->
       tools = ["index_project"; "codebase_search"] /\
       is_Some (Startup.collections p' !! CollectionName) /\
       r = Startup.Returned tt /\
       last evs = Some Startup.CallClose) /\
    (forall format err,
       r = Startup.Fatalf format err ->
       ~ In Startup.CallClose evs /\
       forall tools, ~ In (Startup.CallServeStdio tools) evs) /\
    (forall err,
       Startup.Atoi (Startup.getEnvOrDefault (Startup.services (Some ""))
                       "QDRANT_PORT" "6334")
       = inr err ->
       r = Startup.Fatalf "Invalid QDRANT_PORT: %v" err /\ evs = [] /\
       Startup.collections p' = Startup.collections Startup.new_cluster).
Proof.
  apply (main_serves_after_startup (Startup.services (Some ""))
           Startup.new_cluster).
  intros cs name b H. simpl in H. by injection H as <-.
Defined.

Example Atoi_values :
  Startup.Atoi "6334" = inl 6334 /\
  Startup.Atoi "+80" = inl 80 /\
  Startup.Atoi "-9223372036854775808" = inl (- 2 ^ 63) /\
  Startup.Atoi "9223372036854775808"
  = inr (Startup.NumError "Atoi" "9223372036854775808" "value out of range") /\
  Startup.Atoi "99999999999999999999x"
  = inr (Startup.NumError "Atoi" "99999999999999999999x" "value out of range") /\
  Startup.Atoi "63 34" = inr (Startup.NumError "Atoi" "63 34" "invalid syntax") /\
  Startup.Atoi "-" = inr (Startup.NumError "Atoi" "-" "invalid syntax") /\
  Startup.Atoi "" = inr (Startup.NumError "Atoi" "" "invalid syntax").
Proof. vm_compute. repeat split. Qed.

Example startup_run :
  Startup.main (Startup.services None) Startup.new_cluster
  = (Startup.Returned tt,
     {| Startup.calls :=
          [Startup.CallNewClient {| Startup.Host := "localhost";
                                    Startup.Port := 6334;
                                    Startup.UseTLS := false |};
           Startup.CallCollectionExists "codebase_index";
           Startup.CallCreateCollection
             {| Startup.cc_CollectionName := "codebase_index";
                Startup.cc_VectorsConfig :=
                  {| Startup.Size := 4096;
                     Startup.Distance_ := Startup.Distance_Cosine |} |} true;
           Startup.CallLog "Created new Qdrant collection: codebase_index";
           Startup.CallPrintln "Starting Qdrant MCP Indexer on stdio...";
           Startup.CallServeStdio ["index_project"; "codebase_search"];
           Startup.CallClose];
        Startup.collections :=
          {[ "codebase_index" := {| Startup.Size := 4096;
                                    Startup.Distance_ := Startup.Distance_Cosine |} ]};
        Startup.g_ollamaURL := "http://localhost:11434";
        Startup.g_embeddingModel := "qwen3-embedding:8b" |}).
Proof. vm_compute. reflexivity. Qed.

Lemma ensureCollection_globals svc p :
  Startup.g_ollamaURL (snd (Startup.ensureCollection svc p))
  = Startup.g_ollamaURL p /\
  Startup.g_embeddingModel (snd (Startup.ensureCollection svc p))
  = Startup.g_embeddingModel p.
Proof.
  rewrite ensureCollection_outcome. cbv zeta.
  destruct (Startup.qdrant_CollectionExists svc _ _) as [[|] | e]; [done | | done].
  by destruct (Startup.qdrant_CreateCollection svc _ _).
Qed.

Lemma main_globals svc p :
  Startup.g_ollamaURL (snd (Startup.main svc p))
  = Startup.getEnvOrDefault svc "OLLAMA_URL" "http://localhost:11434" /\
  Startup.g_embeddingModel (snd (Startup.main svc p))
  = Startup.getEnvOrDefault svc "EMBEDDING_MODEL" "qwen3-embedding:8b".
Proof.
  destruct (Startup.main svc p) as [r q] eqn:Hmain. simpl.
  unfold Startup.main in Hmain. unfold bind at 1 2 in Hmain. simpl in Hmain.
  destruct (Startup.Atoi _) as [qdrantPort | err];
    [| unfold ret in Hmain; by simplify_eq].
  unfold bind at 1 in Hmain. simpl in Hmain.
  destruct (Startup.qdrant_NewClient svc _) as [e |];
    [unfold ret in Hmain; by simplify_eq |].
  unfold bind at 1 in Hmain.
  match type of Hmain with
  | context [Startup.ensureCollection svc ?q0] =>
      pose proof (ensureCollection_globals svc q0) as [Hu Hm];
      destruct (Startup.ensureCollection svc q0) as [[[] | format err] p1]
  end; simpl in *; [| unfold ret in Hmain; by simplify_eq].
  unfold bind, ret, Startup.call in Hmain.
  destruct (Startup.server_ServeStdio svc); by simplify_eq.
Qed.

(** X15: the handlers talk to the embedding service the environment names.
    With the globals as [main] leaves them, every embedding request of an
    index run or a search is posted to the value of OLLAMA_URL and names
    the model in EMBEDDING_MODEL; a variable that is not set gives
    http://localhost:11434 and qwen3-embedding:8b, one that is set is taken
    as it is, the empty text included. *)
Theorem handlers_use_the_environment svc p env request w :
  Startup.configured (snd (Startup.main svc p)) env ->
  forall evs,
    trace (snd (handleIndexProject env request w)) = trace w ++ evs \/
    trace (snd (codebase_search env request w)) = trace w ++ evs ->
    forall e,
      In e evs ->
      match e with
      | EvPost url _ _ =>
          url = match Startup.environ svc !! "OLLAMA_URL" with
                | Some value => value
                | None => "http://localhost:11434"
                end
      | EvMarshal r =>
          req_Model r = match Startup.environ svc !! "EMBEDDING_MODEL" with
                        | Some value => value
                        | None => "qwen3-embedding:8b"
                        end
      | _ => True
      end.
Proof.
  intros [Hurl Hmodel] evs Hevs e He.
  destruct (main_globals svc p) as [Hu Hm].
  rewrite Hu in Hurl. rewrite Hm in Hmodel.
  unfold Startup.getEnvOrDefault in *.
  assert (HP : Forall (addressed env) evs).
  { destruct Hevs as [Hevs | Hevs].
    - destruct (handleIndexProject_addressed env request w) as (evs' & Htr & HP).
      rewrite Htr in Hevs. by apply app_inv_head in Hevs as <-.
    - destruct (codebase_search_addressed env request w) as (evs' & Htr & HP).
      rewrite Htr in Hevs. by apply app_inv_head in Hevs as <-. }
  rewrite Forall_forall in HP. apply list_elem_of_In in He.
  specialize (HP e He).
  destruct e; simpl in HP; try done.
  - by rewrite HP.
  - destruct HP as [-> _]. done.
Qed.

Lemma handlers_use_the_environment_witness :
  "http://localhost:11434"
  = match Startup.environ (Startup.services None) !! "OLLAMA_URL" with
    | Some value => value
    | None => "http://localhost:11434"
    end.
Proof.
  refine (handlers_use_the_environment (Startup.services None)
            Startup.new_cluster Cases.env (Sample.search_request "foo")
            Sample.world0 _
            (trace (snd (codebase_search Cases.env (Sample.search_request "foo")
                           Sample.world0)))
            _
            (EvPost "http://localhost:11434" "application/json" "foo") _).
  - split; vm_compute; reflexivity.
  - right. reflexivity.
  - vm_compute. right. left. reflexivity.
Defined.

(** ** Which files are Go files *)

Lemma ext_scan_suffix (before after : list ascii) :
  Filepath.ext_scan before after = "" \/
  exists pre,
    rev before ++ after
    = pre ++ list_ascii_of_string (Filepath.ext_scan before after).
Proof.
  revert after. induction before as [| c before IH]; intros after; simpl.
  - by left.
  - destruct (Ascii.eqb c "/"); [by left |].
    destruct (Ascii.eqb c ".") eqn:Hdot.
    + right. exists (rev before). simpl.
      rewrite list_ascii_of_string_of_list_ascii. by rewrite <- app_assoc.
    + destruct (IH (c :: after)) as [H | [pre H]]; [by left |].
      right. exists pre. by rewrite <- app_assoc.
Qed.

Lemma Ext_go_iff (path : string) :
  Filepath.Ext path = ".go" <-> exists stem, path = stem +:+ ".go".
Proof.
  split.
  - intros Hext. unfold Filepath.Ext in Hext.
    destruct (ext_scan_suffix (rev (list_ascii_of_string path)) [])
      as [H | [pre H]].
    + by rewrite Hext in H.
    + rewrite Hext, rev_involutive, app_nil_r in H.
      exists (string_of_list_ascii pre).
      rewrite <- (string_of_list_ascii_of_string path), H.
      rewrite <- (string_of_list_ascii_of_string
                    (string_of_list_ascii pre +:+ ".go")).
      by rewrite list_ascii_of_append, list_ascii_of_string_of_list_ascii.
  - intros [stem ->]. apply Ext_go.
Qed.

(** X16: the files the walk reads are exactly those whose path ends in
    ".go", test files and a file named just ".go" included: such a file is
    handed to os.ReadFile and is not counted as skipped, and for any other
    file the visit does nothing but count it as skipped. *)
Theorem files_read_are_those_ending_in_go env path n content st :
  let st' := snd (walkFn env path (Visit (File n content)) st) in
  ((exists stem, path = stem +:+ ".go") ->
   reads_of (trace (world st')) = reads_of (trace (world st)) ++ [path] /\
   Skipped (stats st') = Skipped (stats st)) /\
  (~ (exists stem, path = stem +:+ ".go") ->
   st' = {| stats := incSkipped (stats st); world := world st |}).
Proof.
  intros st'. subst st'. split.
  - intros Hgo. apply Ext_go_iff in Hgo.
    destruct (walkFn_file_accounts env path n content st)
      as (st' & -> & [Hreads _ _ Hskipped _]).
    unfold file_reads, file_skipped, is_go in *. simpl in *.
    rewrite Hgo in *. simpl in *. done.
  - intros Hno. rewrite <- Ext_go_iff in Hno.
    unfold walkFn. simpl.
    destruct (string_eqb (Filepath.Ext path) ".go") eqn:Hext; [| done].
    by apply string_eqb_true in Hext.
Qed.
